(** * Enigma: the encoding pipeline of [Machine] and its components

    A shallow embedding of [src/components/Machine.ts],
    [src/components/Reflector.ts] and [src/components/Stator.ts], with the
    presets of [src/models/ModelM3.ts].

    Conventions of the embedding.
    - A JavaScript [number] used as an index or a position is a [Z]. The
      sums of the code are exact as long as the numbers are safe integers
      ([safeInteger]); a property about the sum of arbitrary arguments
      carries that as a hypothesis.
    - A JavaScript [string] is a [string]; the embedding covers the ASCII
      symbols, for which [toUpperCase] maps one character to one character.
      Where the case of other letters matters, the methods are taken over
      the upper-casing function ([Machine.processCharacterWith]), and a
      character stands for the code unit of its number, up to 255.
    - An array is a [list]; [a[i]] is a lookup by position.
    - An object that is mutated in place is passed through the functions
      explicitly: a method returns the new object.
    - A [throw] is the [Throw] case of [Result]; it carries no state, and
      no property below looks at a machine after an exception. *)

From Stdlib Require Import ZArith Lia Ascii String.
From stdpp Require Import base list strings.

Local Open Scope Z_scope.

(** ** Exceptions and results *)

(** The exceptions of the program: the [Error] and [TypeError] objects the
    source constructs, and the [TypeError]s the runtime raises itself. *)
Inductive Exception : Type :=
  | TypeError_Construct (class : string) (param : nat)
      (* a constructor rejected its parameter number [param] *)
  | Error_NoReflector (label : string)
      (* Machine "<label>" does not have a reflector installed. *)
  | Error_InputLength
      (* Machine.encode() recieved a character that was either empty, or
         longer than 1 character. *)
  | TypeError_ReadOfUndefined (property : string)
      (* runtime: cannot read properties of undefined *)
  | TypeError_NotIterable
      (* runtime: spread of a value that is not iterable *)
  | TypeError_NotAFunction (property : string).
      (* runtime: call of a property that is undefined *)

Inductive Result (A : Type) : Type :=
  | Ok (a : A)
  | Throw (e : Exception).
Arguments Ok {A} a.
Arguments Throw {A} e.

#[global] Instance Result_ret : MRet Result := fun A a => Ok a.
#[global] Instance Result_bind : MBind Result := fun A B k r =>
  match r with
  | Ok a => k a
  | Throw e => Throw e
  end.

Definition is_Ok {A : Type} (r : Result A) : bool :=
  match r with Ok _ => true | Throw _ => false end.

(** ** [src/common]: helpers *)

(** Modelled from the spec: [circular] of [src/common] is not among the
    sources. "circular-index normalization ((i mod N) normalized into [0,N)
    for any integer i, including negatives)". *)
Definition circular (i n : Z) : Z := i mod n.

(** Modelled from the spec: [findDuplicates] of [src/common] is not among the
    sources. "duplicate-finder over an array returning (position, value)
    pairs"; "one error per duplicate occurrence": a position is reported
    when its value already stands at an earlier position. *)
Fixpoint findDuplicates_from (seen : list Z) (pos : Z) (arr : list Z)
  : list (Z * Z) :=
  match arr with
  | [] => []
  | v :: rest =>
      if bool_decide (v ∈ seen)
      then (pos, v) :: findDuplicates_from seen (pos + 1) rest
      else findDuplicates_from (v :: seen) (pos + 1) rest
  end.

Definition findDuplicates (arr : list Z) : list (Z * Z) :=
  findDuplicates_from [] 0 arr.

(** Modelled from the spec: [forEachReverse] of [src/common] is not among the
    sources. "Apply each rotor in decreasing index order": the callback is
    called on the elements from the last index down to index 0, with the
    element and its index; [acc] is the state the callback updates. *)
Definition forEachReverse {A S : Type} (arr : list A) (f : S -> A -> nat -> S)
  (acc : S) : S :=
  fold_left (fun s '(ind, x) => f s x ind)
            (rev (zip (seq 0 (length arr)) arr)) acc.

(** [Array.prototype.forEach]: the callback is called on the indices
    0 .. length-1 in increasing order. *)
Definition forEach {A S : Type} (arr : list A) (f : S -> A -> nat -> S)
  (acc : S) : S :=
  fold_left (fun s '(ind, x) => f s x ind)
            (zip (seq 0 (length arr)) arr) acc.

(** [arr[i]] for an index the code has normalised with [circular]. An index
    outside the array reads [undefined] in JavaScript; no component built
    by its constructor reads there (see [Stator.encode_in_range] and
    [Reflector.encode_in_range]), and the embedding returns [-1] for it. *)
Definition array_get (arr : list Z) (i : Z) : Z :=
  if i <? 0 then -1 else default (-1) (arr !! Z.to_nat i).

(** ** [src/interfaces/IValidatable]: validation findings *)

(** The [Error] objects that the [validate] methods build, by the message
    they carry. *)
Inductive Finding : Type :=
  | Stator_Duplicate (ind val : Z)
      (* Stator.mapping[ind] is a duplicate value 'val' *)
  | Reflector_Duplicate (ind val : Z)
      (* Reflector.wiring[ind] is a duplicate value 'val' *)
  | Wheel_Duplicate (ind val : Z)
  | Plugboard_Duplicate (ind val : Z)
  | Machine_EntryWheelCount
      (* ... has an invalid entry wheel (ETW), the number of characters
         does not match. *)
  | Machine_WheelCount (ind : nat)
      (* ... has an invalid wheel[ind], the number of characters does not
         match. *)
  | Machine_WheelFinding (ind : nat) (err : Finding)
      (* ... has an invalid wheel[ind]: <err.message>. *)
  | Machine_ReflectorCount
  | Machine_NoReflector
      (* ... does not have a Reflector installed. *)
  | Machine_PlugboardCount.

(** [OptErrors]: [undefined], or an array of errors. *)
Definition OptErrors : Type := option (list Finding).

(** [...v] in an argument list: [undefined] is not iterable. *)
Definition spread (v : OptErrors) : Result (list Finding) :=
  match v with
  | Some errs => Ok errs
  | None => Throw TypeError_NotIterable
  end.

(** ** [src/components/Stator.ts] *)
Module Stator.

Record t : Type := mk {
  label : string;
  numCharacters : Z;
  mapping : list Z;
}.

Definition new (label : string) (numChars : Z) (map : list Z) : Result t :=
  if (String.length label <? 1)%nat
  then Throw (TypeError_Construct "Stator" 1)
  else if numChars <=? 0
  then Throw (TypeError_Construct "Stator" 2)
  else if negb (Z.of_nat (length map) =? numChars)
  then Throw (TypeError_Construct "Stator" 3)
  else Ok (mk label numChars map).

Definition encode (s : t) (index : Z) : Z :=
  array_get (mapping s) (circular index (numCharacters s)).

Definition validate (s : t) : OptErrors :=
  let dups := findDuplicates (mapping s) in
  if negb (length dups =? 0)%nat
  then Some (map (fun '(ind, val) => Stator_Duplicate ind val) dups)
  else None.

End Stator.

(** ** [src/components/Reflector.ts] *)
Module Reflector.

Record t : Type := mk {
  label : string;
  numCharacters : Z;
  wiring : list Z;
  startingPosition : Z;
  moving : bool;
  position : Z;
  isSetup : bool;
}.

Definition new (label : string) (numChars : Z) (wiring : list Z)
  (moving : bool) : Result t :=
  if (String.length label <? 1)%nat
  then Throw (TypeError_Construct "Reflector" 1)
  else if numChars <=? 0
  then Throw (TypeError_Construct "Reflector" 2)
  else if negb (Z.of_nat (length wiring) =? numChars)
  then Throw (TypeError_Construct "Reflector" 3)
  else Ok (mk label numChars wiring 0 moving 0 false).

Definition setup (r : t) (startPosition : Z) : t :=
  let start := circular startPosition (numCharacters r) in
  mk (label r) (numCharacters r) (wiring r) start (moving r) start true.

Definition encode (r : t) (index : Z) : Z :=
  let char := circular (index + position r) (numCharacters r) in
  array_get (wiring r) char.

Definition advance (r : t) (steps : Z) : t :=
  if negb (moving r)
  then r
  else mk (label r) (numCharacters r) (wiring r) (startingPosition r)
          (moving r) (circular (position r + steps) (numCharacters r))
          (isSetup r).

Definition validate (r : t) : OptErrors :=
  let dups := findDuplicates (wiring r) in
  if negb (length dups =? 0)%nat
  then Some (map (fun '(ind, val) => Reflector_Duplicate ind val) dups)
  else None.

(** The methods of the class, with the effect on the Reflector of a call
    without arguments (parameters take their defaults; [encode] and
    [validate] do not change the Reflector). *)
Definition methods : list (string * (t -> t)) :=
  [ ("setup", fun r => setup r 0);
    ("encode", fun r => r);
    ("advance", fun r => advance r 1);
    ("validate", fun r => r) ]%string.

Fixpoint find_method (name : string) (ms : list (string * (t -> t)))
  : option (t -> t) :=
  match ms with
  | [] => None
  | (n, f) :: rest => if String.eqb n name then Some f else find_method name rest
  end.

(** The statement [r.name()]: a name the class does not define reads
    [undefined], and calling it raises a [TypeError]. *)
Definition call (name : string) (r : t) : Result t :=
  match find_method name methods with
  | Some f => Ok (f r)
  | None => Throw (TypeError_NotAFunction name)
  end.

End Reflector.

(** ** [src/components/Wheel.ts] *)
Module Wheel.

(** Modelled from the spec: the class [Wheel] is not among the sources.
    "Rotor: {label, numCharacters, wiring: Substitution Table, notch
    positions: set of index-or-symbol markers, startingPosition,
    currentPosition}". The notch markers are kept as indices. *)
Record t : Type := mk {
  label : string;
  numCharacters : Z;
  wiring : list Z;
  notches : list Z;
  startingPosition : Z;
  currentPosition : Z;
}.

(** Modelled from the spec: "setup(start) fixes startingPosition and
    initializes currentPosition = startingPosition". *)
Definition setup (w : t) (start : Z) : t :=
  let start := circular start (numCharacters w) in
  mk (label w) (numCharacters w) (wiring w) (notches w) start start.

(** Modelled from the spec: "advance(steps=1): currentPosition =
    (currentPosition + steps) mod N. Always legal; no guard." *)
Definition advance (w : t) (steps : Z) : t :=
  mk (label w) (numCharacters w) (wiring w) (notches w) (startingPosition w)
     (circular (currentPosition w + steps) (numCharacters w)).

(** Modelled from the spec: "atNotch (query): true iff the symbol at
    currentPosition is a member of this rotor's notch set." *)
Definition atNotch (w : t) : bool :=
  bool_decide (currentPosition w ∈ notches w).

(** Modelled from the spec: "encode(index) -> index: applies the rotor's
    rotational offset, then the wiring table:
    wiring[(index + currentPosition) mod N]". *)
Definition encode (w : t) (index : Z) : Z :=
  array_get (wiring w) (circular (index + currentPosition w) (numCharacters w)).

(** Modelled from the spec: "reset(): currentPosition = startingPosition.
    No return value." *)
Definition reset (w : t) : t :=
  mk (label w) (numCharacters w) (wiring w) (notches w) (startingPosition w)
     (startingPosition w).

(** Modelled from the spec: "validate(): same duplicate check as §4.1,
    scoped to this rotor's wiring"; "validate() -> list of errors". *)
Definition validate (w : t) : list Finding :=
  map (fun '(ind, val) => Wheel_Duplicate ind val) (findDuplicates (wiring w)).

End Wheel.

(** ** [src/components/Plugboard.ts] *)
Module Plugboard.

(** Modelled from the spec: the class [Plugboard] is not among the
    sources. "Plugboard: {numCharacters, wiring}". *)
Record t : Type := mk {
  numCharacters : Z;
  wiring : list Z;
}.

(** Modelled from the spec: "encode(index) -> index: single table lookup,
    no positional offset"; the index is "normalized into [0,N) before
    lookup", a normalization "shared by every indexed component". *)
Definition encode (p : t) (index : Z) : Z :=
  array_get (wiring p) (circular index (numCharacters p)).

(** Modelled from the spec: "validate(): duplicate check". *)
Definition validate (p : t) : list Finding :=
  map (fun '(ind, val) => Plugboard_Duplicate ind val) (findDuplicates (wiring p)).

End Plugboard.

(** ** Strings *)

Definition is_lower (c : ascii) : bool :=
  ((97 <=? nat_of_ascii c) && (nat_of_ascii c <=? 122))%nat.

Definition upper_ascii (c : ascii) : ascii :=
  if is_lower c then ascii_of_nat (nat_of_ascii c - 32) else c.

(** [String.prototype.toUpperCase], on ASCII strings. *)
Fixpoint toUpperCase (s : string) : string :=
  match s with
  | EmptyString => EmptyString
  | String c rest => String (upper_ascii c) (toUpperCase rest)
  end.

(** [String.prototype.toUpperCase] on one code unit below 256, the
    character standing for the code unit of its number: the letters a..z
    and the letters 224..254 of Latin-1, but the division sign 247, are
    moved down by 32, and the sharp s, 223, becomes SS. The micro sign, 181,
    and the y with dieresis, 255, whose upper-case forms lie above 255, are
    outside the embedding and are left as they are. *)
Definition upper_latin1 (c : ascii) : string :=
  let n := nat_of_ascii c in
  if (n =? 223)%nat then "SS"
  else if ((97 <=? n) && (n <=? 122)
           || (224 <=? n) && (n <=? 246)
           || (248 <=? n) && (n <=? 254))%nat
       then String (ascii_of_nat (n - 32)) EmptyString
       else String c EmptyString.


(** [s[0]]: the first character as a string, [undefined] on the empty
    string. *)
Definition char0 (s : string) : option string :=
  match s with
  | EmptyString => None
  | String c _ => Some (String c EmptyString)
  end.

(** [s.split('')]: the characters of [s], each as a string. *)
Fixpoint split_chars (s : string) : list string :=
  match s with
  | EmptyString => []
  | String c rest => String c EmptyString :: split_chars rest
  end.

(** [arr.join('')]. *)
Definition join (arr : list string) : string :=
  fold_right String.append EmptyString arr.

(** ** [src/alphabet]: symbols and indices *)

Fixpoint index_of_from (pos : Z) (c : ascii) (alphabet : string) : option Z :=
  match alphabet with
  | EmptyString => None
  | String a rest =>
      if Ascii.eqb a c then Some pos else index_of_from (pos + 1) c rest
  end.

(** The index of a one-character symbol in the alphabet. *)
Definition index_of (symbol alphabet : string) : option Z :=
  match symbol with
  | String c EmptyString => index_of_from 0 c alphabet
  | _ => None
  end.

(** Modelled from the spec: [getCharacterIndex] of [src/alphabet] is not
    among the sources. "symbolToIndex(symbol, alphabet, fallbackSymbol) ->
    index", "substituting unknownFallback's index for symbols outside the
    alphabet"; [-1] when the fallback is not in the alphabet either. *)
Definition getCharacterIndex (symbol alphabet unknownAs : string) : Z :=
  match index_of symbol alphabet with
  | Some i => i
  | None => default (-1) (index_of unknownAs alphabet)
  end.

(** Modelled from the spec: [getCharacterFromIndex] of [src/alphabet] is not
    among the sources. "indexToSymbol(index, alphabet, fallbackSymbol) ->
    symbol; must wrap/clamp consistently with the Machine's own modulo
    convention": the symbol at [index mod N], the fallback when the alphabet
    has no symbol there. *)
Definition getCharacterFromIndex (index : Z) (alphabet unknownAs : string)
  : string :=
  match String.get (Z.to_nat (circular index (Z.of_nat (String.length alphabet))))
                   alphabet with
  | Some c => String c EmptyString
  | None => unknownAs
  end.

(** ** [src/interfaces/debugging]: traces *)

Inductive Op : Type :=
  | Op_Encode | Op_WheelAdvance | Op_ReflectorAdvance | Op_EncodeReverse.

Inductive Component : Type :=
  | Comp_Plugboard | Comp_Stator | Comp_Wheel (ind : nat) | Comp_Reflector.

(** The [msg] of an advance step, by the template that builds it; the
    visible character that the text also shows is not kept. *)
Inductive Msg : Type :=
  | Msg_FirstWheel (label : string)
  | Msg_BecauseOfNotch (ind : nat) (label prevLabel : string)
  | Msg_DidNotAdvance (ind : nat) (label : string)
  | Msg_AdvancingReflector (label : string).

Record TraceStep : Type := mkStep {
  op : Op;
  component : option Component;
  input : option Z;
  inputChar : option string;
  output : option Z;
  outputChar : option string;
  msg : option Msg;
}.

Record Trace : Type := mkTrace {
  trace_inputRaw : string;
  trace_steps : list TraceStep;
  trace_inputChar : string;
  trace_inputIndex : Z;
  trace_outputIndex : Z;
  trace_outputChar : string;
}.

(** ** [src/components/Machine.ts] *)
Module Machine.

Record t : Type := mk {
  label : string;
  alphabet : string;
  numCharacters : Z;
  plugboard : option Plugboard.t;
  entryWheel : Stator.t;
  wheels : list Wheel.t;
  reflector : option Reflector.t;
}.

(** The constructor, over the function [toUpper] that stands for
    [String.prototype.toUpperCase]; an argument left out is [None] (for
    [wheels], the empty array). The [instanceof] checks hold by typing. *)
Definition newWith (toUpper : string -> string) (label alphabet : string)
  (etw : Stator.t) (wheels : option (list Wheel.t)) (ukw : option Reflector.t)
  (plugboard : option Plugboard.t) : Result t :=
  if (String.length label <=? 0)%nat
  then Throw (TypeError_Construct "Machine" 0)
  else if (String.length alphabet =? 0)%nat
  then Throw (TypeError_Construct "Machine" 1)
  else
    let alphabet := toUpper alphabet in
    Ok (mk label alphabet (Z.of_nat (String.length alphabet)) plugboard etw
           (default [] wheels) ukw).

(** The constructor on ASCII strings. *)
Definition new (label alphabet : string) (etw : Stator.t)
  (wheels : option (list Wheel.t)) (ukw : option Reflector.t)
  (plugboard : option Plugboard.t) : Result t :=
  newWith toUpperCase label alphabet etw wheels ukw plugboard.

Definition set_wheels (m : t) (ws : list Wheel.t) : t :=
  mk (label m) (alphabet m) (numCharacters m) (plugboard m) (entryWheel m)
     ws (reflector m).

Definition set_reflector (m : t) (r : option Reflector.t) : t :=
  mk (label m) (alphabet m) (numCharacters m) (plugboard m) (entryWheel m)
     (wheels m) r.

(** [reset]: [this.wheels.forEach(whl => whl.reset())], then
    [this.reflector?.reset()]. *)
Definition reset (m : t) : Result t :=
  let ws := forEach (wheels m)
              (fun ws whl ind => <[ind := Wheel.reset whl]> ws) (wheels m) in
  match reflector m with
  | None => Ok (set_wheels m ws)
  | Some r =>
      r' ← Reflector.call "reset" r;
      Ok (set_reflector (set_wheels m ws) (Some r'))
  end.

(** A trace step of an encoding: [input] and [output] are the index before
    and after the component. *)
Definition encodeStep (m : t) (unknownAs : string) (o : Op) (c : Component)
  (input output : Z) : TraceStep :=
  mkStep o (Some c)
    (Some input) (Some (getCharacterFromIndex input (alphabet m) unknownAs))
    (Some output) (Some (getCharacterFromIndex output (alphabet m) unknownAs))
    None.

Definition advanceStep (text : Msg) : TraceStep :=
  mkStep Op_WheelAdvance None None None None None (Some text).

(** The state that the callbacks of [processCharacter] share: the wheels
    of the machine (objects mutated in place), the local [index] and
    [trace.steps]. *)
Definition LoopState : Type := (list Wheel.t * Z * list TraceStep)%type.

(** The callback of [this.wheels.forEach], lines 218-245. [this.wheels[ind
    - 1]] is read from the array as it stands when the callback runs; the
    loop calls the callback with [0 < ind < length] there, so that the read
    finds a wheel (the [None] case is not reached). The wheels of a machine
    are distinct objects. *)
Definition forwardWheel (m : t) (unknownAs : string) (st : LoopState)
  (whl : Wheel.t) (ind : nat) : LoopState :=
  let '(ws, index, steps) := st in
  let '(whl, text) :=
    if (ind =? 0)%nat
    then (Wheel.advance whl 1, Msg_FirstWheel (Wheel.label whl))
    else
      match ws !! (ind - 1)%nat with
      | Some prev =>
          if Wheel.atNotch prev
          then (Wheel.advance whl 1,
                Msg_BecauseOfNotch ind (Wheel.label whl) (Wheel.label prev))
          else (whl, Msg_DidNotAdvance ind (Wheel.label whl))
      | None => (whl, Msg_DidNotAdvance ind (Wheel.label whl))
      end in
  let steps := steps ++ [advanceStep text] in
  let out := Wheel.encode whl index in
  (<[ind := whl]> ws, out,
   steps ++ [encodeStep m unknownAs Op_Encode (Comp_Wheel ind) index out]).

(** The callback of [forEachReverse], lines 272-285. *)
Definition reverseWheel (m : t) (unknownAs : string)
  (st : Z * list TraceStep) (whl : Wheel.t) (ind : nat) : Z * list TraceStep :=
  let '(index, steps) := st in
  let out := Wheel.encode whl index in
  (out, steps ++ [encodeStep m unknownAs Op_EncodeReverse (Comp_Wheel ind) index out]).

(** [processCharacter], lines 154-322, over the function [toUpper] that
    stands for [String.prototype.toUpperCase]. *)
Definition processCharacterWith (toUpper : string -> string) (m : t)
  (char unknownAs : string) : Result (t * (string * Trace)) :=
  (* Ensure we have any required parts *)
  match reflector m with
  | None => Throw (Error_NoReflector (label m))
  | Some refl =>
  let steps : list TraceStep := [] in
  (* Normalize the character *)
  match char0 char with
  | None => Throw (TypeError_ReadOfUndefined "toUpperCase")
  | Some c0 =>
  let input := toUpper c0 in
  (* Ensure the input is a single character *)
  if ((String.length input =? 0) || (1 <? String.length input))%nat
  then Throw Error_InputLength
  else
  let index := getCharacterIndex input (alphabet m) unknownAs in
  let inputIndex := index in
  (* Use the plugboard if it's installed *)
  let '(index, steps) :=
    match plugboard m with
    | Some pb =>
        let out := Plugboard.encode pb index in
        (out, steps ++ [encodeStep m unknownAs Op_Encode Comp_Plugboard index out])
    | None => (index, steps)
    end in
  (* Use the Stator (ETW) *)
  let out := Stator.encode (entryWheel m) index in
  let steps := steps ++ [encodeStep m unknownAs Op_Encode Comp_Stator index out] in
  let index := out in
  (* Advance the wheels, and encode *)
  let '(ws, index, steps) :=
    forEach (wheels m) (forwardWheel m unknownAs) (wheels m, index, steps) in
  (* If the reflector is capable of moving, do so first *)
  let '(refl, steps) :=
    if Reflector.moving refl
    then (Reflector.advance refl 1,
          steps ++ [mkStep Op_ReflectorAdvance None None None None None
                      (Some (Msg_AdvancingReflector (Reflector.label refl)))])
    else (refl, steps) in
  (* Use the reflector *)
  let out := Reflector.encode refl index in
  let steps := steps ++ [encodeStep m unknownAs Op_Encode Comp_Reflector index out] in
  let index := out in
  (* Go through the wheels, in reverse *)
  let '(index, steps) :=
    forEachReverse ws (reverseWheel m unknownAs) (index, steps) in
  (* Back out through the stator *)
  let out := Stator.encode (entryWheel m) index in
  let steps := steps ++ [encodeStep m unknownAs Op_EncodeReverse Comp_Stator index out] in
  let index := out in
  (* If the plugboard is present, then use it *)
  let '(index, steps) :=
    match plugboard m with
    | Some pb =>
        let out := Plugboard.encode pb index in
        (out, steps ++ [encodeStep m unknownAs Op_EncodeReverse Comp_Plugboard index out])
    | None => (index, steps)
    end in
  let outputChar := getCharacterFromIndex index (alphabet m) unknownAs in
  Ok (set_reflector (set_wheels m ws) (Some refl),
      (outputChar,
       mkTrace char steps input inputIndex index outputChar))
  end
  end.

(** [processCharacter] on ASCII strings. *)
Definition processCharacter (m : t) (char unknownAs : string)
  : Result (t * (string * Trace)) :=
  processCharacterWith toUpperCase m char unknownAs.

(** The callback of [msg.split('').map], lines 349-353, over the machine
    and the local [traces]; [Array.prototype.map] calls it on the
    characters in order and collects the returned symbols. *)
Fixpoint mapChars (unknownAs : string) (chars : list string)
  (st : t * list Trace) : Result (t * list Trace * list string) :=
  match chars with
  | [] => Ok (st, [])
  | char :: rest =>
      let '(m, traces) := st in
      '(m, (out, trace)) ← processCharacter m char unknownAs;
      '(st, outs) ← mapChars unknownAs rest (m, traces ++ [trace]);
      Ok (st, out :: outs)
  end.

Definition processMessage (m : t) (msg unknownAs : string)
  : Result (t * (string * list Trace)) :=
  if (String.length msg =? 0)%nat
  then Ok (m, (msg, []))
  else
    '(m, traces, results) ← mapChars unknownAs (split_chars msg) (m, []);
    Ok (m, (join results, traces)).

(** [validate], lines 364-401. *)
Definition validate (m : t) : Result (list Finding) :=
  let errs : list Finding := [] in
  (* Check that the entry wheel is correct *)
  let errs :=
    if negb (Stator.numCharacters (entryWheel m) =? numCharacters m)
    then errs ++ [Machine_EntryWheelCount] else errs in
  etwErrs ← spread (Stator.validate (entryWheel m));
  let errs := errs ++ etwErrs in
  (* Check the wheels *)
  let errs := errs ++ concat (imap (fun ind whl =>
    let subErrs :=
      if negb (Wheel.numCharacters whl =? numCharacters m)
      then [Machine_WheelCount ind] else [] in
    let valErrs := map (Machine_WheelFinding ind) (Wheel.validate whl) in
    subErrs ++ valErrs) (wheels m)) in
  (* Check the reflector *)
  errs ← match reflector m with
         | Some refl =>
             let errs :=
               if negb (Reflector.numCharacters refl =? numCharacters m)
               then errs ++ [Machine_ReflectorCount] else errs in
             reflErrs ← spread (Reflector.validate refl);
             Ok (errs ++ reflErrs)
         | None => Ok (errs ++ [Machine_NoReflector])
         end;
  (* Check the plugboard if we have one *)
  let errs :=
    match plugboard m with
    | Some pb =>
        let errs :=
          if negb (Plugboard.numCharacters pb =? numCharacters m)
          then errs ++ [Machine_PlugboardCount] else errs in
        errs ++ Plugboard.validate pb
    | None => errs
    end in
  Ok errs.

End Machine.

(** ** [src/models/ModelM3.ts]: the presets used below *)
Module ModelM3.

(** Modelled from the spec: [AlphabetABC] of [src/alphabet] is not among
    the sources; the 26 letters in order. *)
Definition AlphabetABC : string := "ABCDEFGHIJKLMNOPQRSTUVWXYZ".

(** The wiring string of a preset as a substitution table: position [i]
    holds the alphabet index of the [i]-th character of the string. *)
Definition wiringOf (alphabet wiring : string) : list Z :=
  map (fun c => default (-1) (index_of c alphabet)) (split_chars wiring).

Definition wheel (label wiring : string) (notches : list string) : Wheel.t :=
  Wheel.mk label (Z.of_nat (String.length AlphabetABC))
    (wiringOf AlphabetABC wiring)
    (map (fun c => default (-1) (index_of c AlphabetABC)) notches) 0 0.

Definition wheel_I : Wheel.t := wheel "I" "EKMFLGDQVZNTOWYHXUSPAIBRCJ" ["Y"].
Definition wheel_II : Wheel.t := wheel "II" "AJDKSIRUXBLHWTMCQGZNPYFVOE" ["M"].
Definition wheel_III : Wheel.t := wheel "III" "BDFHJLCPRTXVZNYEIWGAKMUSQO" ["D"].

Definition UKW_B : Reflector.t :=
  Reflector.mk "UKW-B" 26 (wiringOf AlphabetABC "YRUHQSLDPXNGOKMIEBFZCWVJAT")
    0 false 0 false.

(** The entry wheel that maps every letter to itself. *)
Definition ETW : Stator.t :=
  Stator.mk "ETW" 26 (wiringOf AlphabetABC AlphabetABC).

(** Wheels I, II, III from left to right: index 0 is the right-most. *)
Definition machine : Machine.t :=
  Machine.mk "M3 (Kriegsmarine)" AlphabetABC 26 None ETW
    [wheel_III; wheel_II; wheel_I] (Some UKW_B).

End ModelM3.

(** ** Definitions for the properties *)

(** The invariant: [position] is an index of the alphabet. *)
Definition Reflector_inv (r : Reflector.t) : Prop :=
  0 <= Reflector.position r < Reflector.numCharacters r.

(** What one turn of the loop does to a wheel: the first wheel advances; a
    later one advances when the wheel before it, as the loop left it, is at
    a notch. *)
Definition stepWheel (prev : option Wheel.t) (w : Wheel.t) : Wheel.t :=
  match prev with
  | None => Wheel.advance w 1
  | Some p => if Wheel.atNotch p then Wheel.advance w 1 else w
  end.

(** The wheels after the advancement of one symbol, in index order; [prev]
    is the wheel before the first of [ws], already stepped. *)
Fixpoint advanceFrom (prev : option Wheel.t) (ws : list Wheel.t) : list Wheel.t :=
  match ws with
  | [] => []
  | w :: rest =>
      let w' := stepWheel prev w in
      w' :: advanceFrom (Some w') rest
  end.

Definition advanceWheels (ws : list Wheel.t) : list Wheel.t := advanceFrom None ws.

(** The stepping rule as the specification words it: "rotor 0 always
    advances; rotor i>0 advances iff rotor i-1 is currently at-notch -
    evaluated using each rotor's at-notch state as it stood before any rotor
    advanced this step". *)
Definition advanceWheels_snapshot (ws : list Wheel.t) : list Wheel.t :=
  imap (fun ind w =>
          if (ind =? 0)%nat then Wheel.advance w 1
          else match ws !! (ind - 1)%nat with
               | Some prev => if Wheel.atNotch prev then Wheel.advance w 1 else w
               | None => w
               end) ws.

(** The substitutions of the wheels [ws], applied in list order. *)
Definition encodeThrough (ws : list Wheel.t) (index : Z) : Z :=
  fold_left (fun i w => Wheel.encode w i) ws index.

(** What a trace step records of the order: the operation and the
    component. *)
Definition kind (s : TraceStep) : Op * option Component := (op s, component s).

Definition forwardKinds (first count : nat) : list (Op * option Component) :=
  flat_map (fun ind => [(Op_WheelAdvance, None);
                        (Op_Encode, Some (Comp_Wheel ind))])
           (seq first count).

Definition reverseKinds (first count : nat) : list (Op * option Component) :=
  map (fun ind => (Op_EncodeReverse, Some (Comp_Wheel ind)))
      (rev (seq first count)).

(** The plugboard, when one is installed. *)
Definition plug (m : Machine.t) (index : Z) : Z :=
  match Machine.plugboard m with
  | Some pb => Plugboard.encode pb index
  | None => index
  end.

(** The reflector is advanced once when it is a moving one. *)
Definition moveReflector (refl : Reflector.t) : Reflector.t :=
  if Reflector.moving refl then Reflector.advance refl 1 else refl.

(** The path of one symbol as the specification words it: the wheels are
    advanced, the reflector is advanced if it moves, and the index goes
    through Plugboard, Stator, the wheels 0..N-1, the Reflector, the wheels
    N-1..0, Stator, Plugboard. *)
Definition pipeline (m : Machine.t) (refl : Reflector.t) (index : Z)
  : Machine.t * Z :=
  let ws := advanceWheels (Machine.wheels m) in
  let refl := moveReflector refl in
  let i := plug m index in
  let i := Stator.encode (Machine.entryWheel m) i in
  let i := encodeThrough ws i in
  let i := Reflector.encode refl i in
  let i := encodeThrough (rev ws) i in
  let i := Stator.encode (Machine.entryWheel m) i in
  let i := plug m i in
  (Machine.set_reflector (Machine.set_wheels m ws) (Some refl), i).

Definition plugKinds (m : Machine.t) (o : Op) : list (Op * option Component) :=
  match Machine.plugboard m with
  | Some _ => [(o, Some Comp_Plugboard)]
  | None => []
  end.

(** The operations and components of the trace of one symbol, in order. *)
Definition pipelineKinds (m : Machine.t) (refl : Reflector.t)
  : list (Op * option Component) :=
  plugKinds m Op_Encode
  ++ [(Op_Encode, Some Comp_Stator)]
  ++ forwardKinds 0 (length (Machine.wheels m))
  ++ (if Reflector.moving refl then [(Op_ReflectorAdvance, None)] else [])
  ++ [(Op_Encode, Some Comp_Reflector)]
  ++ reverseKinds 0 (length (Machine.wheels m))
  ++ [(Op_EncodeReverse, Some Comp_Stator)]
  ++ plugKinds m Op_EncodeReverse.

(** The symbol that [processCharacter] returns. *)
Definition symbolOf (r : Result (Machine.t * (string * Trace))) : Result string :=
  '(_, (s, _)) ← r; Ok s.

(** The machine that [processCharacter] leaves, with the symbol. *)
Definition outcome (r : Result (Machine.t * (string * Trace)))
  : Result (Machine.t * string) :=
  '(m, (s, _)) ← r; Ok (m, s).

(** The positions of the wheels that [processCharacter] leaves. *)
Definition positionsOf (r : Result (Machine.t * (string * Trace)))
  : Result (list Z) :=
  '(m, _) ← r; Ok (map Wheel.currentPosition (Machine.wheels m)).

(** The steps of the way back through the wheels: component, input and
    output of the steps that encode in reverse through a wheel. *)
Definition returnSteps (r : Result (Machine.t * (string * Trace)))
  : list (nat * Z * Z) :=
  match r with
  | Ok (_, (_, trace)) =>
      flat_map (fun s =>
                  match op s, component s, input s, output s with
                  | Op_EncodeReverse, Some (Comp_Wheel ind), Some i, Some o =>
                      [(ind, i, o)]
                  | _, _, _, _ => []
                  end) (trace_steps trace)
  | Throw _ => []
  end.

(** A machine whose tables are substitution tables of its alphabet: a
    reflector is installed, every component has the machine's number of
    characters, and no table has a duplicate value. *)
Definition validMachine (m : Machine.t) : bool :=
  let n := Machine.numCharacters m in
  let table (count : Z) (wiring : list Z) :=
    (count =? n) && (Z.of_nat (length wiring) =? n)
    && bool_decide (findDuplicates wiring = []) in
  table (Stator.numCharacters (Machine.entryWheel m))
        (Stator.mapping (Machine.entryWheel m))
  && forallb (fun w => table (Wheel.numCharacters w) (Wheel.wiring w))
             (Machine.wheels m)
  && match Machine.reflector m with
     | Some refl => table (Reflector.numCharacters refl) (Reflector.wiring refl)
     | None => false
     end
  && match Machine.plugboard m with
     | Some pb => table (Plugboard.numCharacters pb) (Plugboard.wiring pb)
     | None => true
     end.

(** The starting configuration: every wheel and the reflector stand at
    their starting positions. *)
Definition atStart (m : Machine.t) : bool :=
  forallb (fun w => Wheel.currentPosition w =? Wheel.startingPosition w)
          (Machine.wheels m)
  && match Machine.reflector m with
     | Some refl => Reflector.position refl =? Reflector.startingPosition refl
     | None => true
     end.

(** The substitution that the specification asks of a wheel on the way
    back, "the inverse permutation": the index that [encode] maps to
    [index]. *)
Definition Wheel_encodeInverse (w : Wheel.t) (index : Z) : option Z :=
  find (fun j => Wheel.encode w j =? index)
       (map Z.of_nat (seq 0 (Z.to_nat (Wheel.numCharacters w)))).

(** The M3 with its wheel 0 (wheel III, notch at D = 3) set to [start]. *)
Definition machineWithFirstWheelAt (start : Z) : Machine.t :=
  Machine.set_wheels ModelM3.machine
    [Wheel.setup ModelM3.wheel_III start; ModelM3.wheel_II; ModelM3.wheel_I].

(** The fold of the specification: one step takes the machine, the output
    so far and the traces so far, processes one symbol, and appends its
    output symbol and its trace. *)
Definition foldStep (u : string) (acc : Result (Machine.t * (string * list Trace)))
  (char : string) : Result (Machine.t * (string * list Trace)) :=
  '(m, (out, traces)) ← acc;
  '(m, (symbol, trace)) ← Machine.processCharacter m char u;
  Ok (m, (String.append out symbol, traces ++ [trace])).

Definition foldCharacters (m : Machine.t) (msg u : string)
  : Result (Machine.t * (string * list Trace)) :=
  fold_left (foldStep u) (split_chars msg) (Ok (m, (EmptyString, []))).

(** A moving reflector over four symbols, for the instances below. *)
Definition movingReflector : Reflector.t :=
  Reflector.mk "UKW-G" 4 [1; 0; 3; 2] 0 true 0 false.

(** A Reflector as its constructor leaves it: a positive number of
    characters, and a wiring of that length. *)
Definition Reflector_wf (r : Reflector.t) : Prop :=
  0 < Reflector.numCharacters r
  /\ Z.of_nat (length (Reflector.wiring r)) = Reflector.numCharacters r.

(** The index that a trace leads to: starting from [cur], every step that
    records an input must take up the index the step before it left, and
    leaves its output; a step without input and output (an advance) leaves
    the index alone. [None] when a step does not take up the index. *)
Fixpoint chainEnd (cur : Z) (steps : list TraceStep) : option Z :=
  match steps with
  | [] => Some cur
  | s :: rest =>
      match input s, output s with
      | Some i, Some o => if i =? cur then chainEnd o rest else None
      | None, None => chainEnd cur rest
      | _, _ => None
      end
  end.

(** A step shows, beside each index it records, the symbol of that index in
    the alphabet of the machine. *)
Definition stepLabelled (m : Machine.t) (u : string) (s : TraceStep) : Prop :=
  inputChar s
  = option_map (fun i => getCharacterFromIndex i (Machine.alphabet m) u) (input s)
  /\ outputChar s
     = option_map (fun i => getCharacterFromIndex i (Machine.alphabet m) u) (output s).

(** The findings about the assembly of a machine (a count that does not
    match, a missing reflector), as opposed to those about the tables. *)
Definition assemblyFinding (f : Finding) : bool :=
  match f with
  | Machine_EntryWheelCount | Machine_WheelCount _ | Machine_ReflectorCount
  | Machine_NoReflector | Machine_PlugboardCount => true
  | _ => false
  end.

(** The findings about the assembly that a machine calls for, in the order
    entry wheel, wheels by index, reflector, plugboard. *)
Definition assemblyFindings (m : Machine.t) : list Finding :=
  let n := Machine.numCharacters m in
  (if negb (Stator.numCharacters (Machine.entryWheel m) =? n)
   then [Machine_EntryWheelCount] else [])
  ++ concat (imap (fun ind whl =>
                     if negb (Wheel.numCharacters whl =? n)
                     then [Machine_WheelCount ind] else []) (Machine.wheels m))
  ++ match Machine.reflector m with
     | Some refl =>
         if negb (Reflector.numCharacters refl =? n)
         then [Machine_ReflectorCount] else []
     | None => [Machine_NoReflector]
     end
  ++ match Machine.plugboard m with
     | Some pb =>
         if negb (Plugboard.numCharacters pb =? n)
         then [Machine_PlugboardCount] else []
     | None => []
     end.

(** ** [src/models]: the presets *)
Module Models.

(** The records of the presets; [src/models/interfaces] is not among the
    sources, and the fields are those that the presets give. A wiring, a
    notch and the alphabet are strings, of type [Str]. *)
Record WheelDef (Str : Type) : Type := mkWheel {
  wheel_label : string;
  wheel_wiring : Str;
  wheel_notches : list Str;
}.

Record ReflectorDef (Str : Type) : Type := mkReflector {
  reflector_label : string;
  reflector_wiring : Str;
}.

Record Model (Str : Type) : Type := mkModel {
  label : string;
  alphabet : Str;
  wheelCount : Z;
  wheels : list (WheelDef Str);
  reflectors : list (ReflectorDef Str);
  plugboard : option bool;
}.

Arguments mkWheel {Str}.
Arguments wheel_label {Str}.
Arguments wheel_wiring {Str}.
Arguments wheel_notches {Str}.
Arguments mkReflector {Str}.
Arguments reflector_label {Str}.
Arguments reflector_wiring {Str}.
Arguments mkModel {Str}.
Arguments label {Str}.
Arguments alphabet {Str}.
Arguments wheelCount {Str}.
Arguments wheels {Str}.
Arguments reflectors {Str}.
Arguments plugboard {Str}.

(** [src/models/ModelM3.ts], lines 79-140 of the file of the models. *)
Definition ModelM3 : Model string :=
  mkModel "M3 (Kriegsmarine)" ModelM3.AlphabetABC 3
    [ mkWheel "I" "EKMFLGDQVZNTOWYHXUSPAIBRCJ" ["Y"];
      mkWheel "II" "AJDKSIRUXBLHWTMCQGZNPYFVOE" ["M"];
      mkWheel "III" "BDFHJLCPRTXVZNYEIWGAKMUSQO" ["D"];
      mkWheel "IV" "ESOVPZJAYQUIRHXLNFTGKDCMWB" ["R"];
      mkWheel "V" "VZBRGITYUPSDNHLXAWMJQOFECK" ["H"];
      mkWheel "VI" "JPGVOUMFYQBENHZRDKASXLICTW" ["H"; "U"];
      mkWheel "VII" "NZJHGRCXMYSWBOUFAIVLPEKQDT" ["H"; "U"];
      mkWheel "VIII" "FKQHTLXOCBJSPDZRAMEWNIUYGV" ["H"; "U"] ]%string
    [ mkReflector "UKW-B" "YRUHQSLDPXNGOKMIEBFZCWVJAT";
      mkReflector "UKW-C" "FVPJIAOYEDRZXWGCTKUQSBNMHL" ]%string
    (Some true).

(** [src/models/ModelA133.ts], lines 19-49. Its strings hold the letters
    Aring, Adieresis and Odieresis and are given by their UTF-16 code units
    (197, 196 and 214 for the three); [Alphabet28] of [src/alphabet] is not
    among the sources and is a parameter. *)
Definition ModelA133 (Alphabet28 : list N) : Model (list N) :=
  mkModel "B (A-133)" Alphabet28 3
    [ mkWheel "I"
        [80; 83; 66; 71; 214; 88; 81; 74; 68; 72; 79; 196; 85; 67; 70; 82; 84;
         69; 90; 86; 197; 73; 78; 76; 89; 77; 75; 65]%N
        [[71]%N];
      mkWheel "II"
        [67; 72; 78; 83; 89; 214; 65; 68; 77; 79; 84; 82; 90; 88; 66; 196; 73;
         71; 197; 69; 75; 81; 85; 80; 70; 76; 86; 74]%N
        [[71]%N];
      mkWheel "III"
        [197; 86; 81; 73; 65; 196; 88; 82; 74; 66; 214; 90; 83; 80; 67; 70; 89;
         85; 78; 84; 72; 68; 79; 77; 69; 75; 71; 76]%N
        [[71]%N] ]
    [ mkReflector "UKW"
        [76; 68; 71; 66; 196; 78; 67; 80; 83; 75; 74; 65; 86; 70; 90; 72; 88;
         85; 73; 197; 82; 77; 81; 214; 79; 84; 69; 89]%N ]
    None.

End Models.

(** A wiring that sends the symbols of [alphabet] one to one onto
    themselves: as long as the alphabet, without a repeated symbol, every
    symbol of it in the alphabet. *)
Definition permutes {A : Type} (alphabet wiring : list A) : Prop :=
  length wiring = length alphabet
  /\ NoDup wiring
  /\ Forall (fun c => c ∈ alphabet) wiring.

(** A wiring that pairs the symbols of [alphabet]: no symbol is wired to
    itself, and when [a] is wired to [b], [b] is wired to [a]. *)
Definition reciprocal {A : Type} (alphabet wiring : list A) : Prop :=
  Forall (fun p => fst p <> snd p /\ (snd p, fst p) ∈ zip alphabet wiring)
         (zip alphabet wiring).

(** [Number.isSafeInteger]: the integers up to 2^53 - 1 in size, which a
    number holds exactly. *)
Definition safeInteger (x : Z) : Prop :=
  - 9007199254740991 <= x <= 9007199254740991.

(** The sum [a + b] of the code is the integer [a + b]: both are safe
    integers, and so is their sum. *)
Definition exactSum (a b : Z) : Prop :=
  safeInteger a /\ safeInteger b /\ safeInteger (a + b).


(** * Properties *)

(** ** Index normalisation and array reads *)

Lemma circular_range (i n : Z) : 0 < n -> 0 <= circular i n < n.
Proof. intros Hn. unfold circular. apply Z.mod_pos_bound. exact Hn. Qed.

Lemma array_get_lookup (arr : list Z) (i : Z) :
  0 <= i < Z.of_nat (length arr) ->
  arr !! Z.to_nat i = Some (array_get arr i).
Proof.
  intros [Hlo Hhi]. unfold array_get.
  destruct (Z.ltb_spec i 0) as [Hneg | _]; [lia |].
  destruct (arr !! Z.to_nat i) as [v |] eqn:Hget; [reflexivity |].
  apply lookup_ge_None in Hget. lia.
Qed.

Lemma string_length_toUpperCase (s : string) :
  String.length (toUpperCase s) = String.length s.
Proof. induction s as [| c s IH]; simpl; [reflexivity | now rewrite IH]. Qed.

Lemma upper_ascii_idem (c : ascii) : upper_ascii (upper_ascii c) = upper_ascii c.
Proof.
  unfold upper_ascii. destruct (is_lower c) eqn:Hc; [| now rewrite Hc].
  unfold is_lower in *. apply andb_prop in Hc as [Hlo Hhi].
  apply Nat.leb_le in Hlo. apply Nat.leb_le in Hhi.
  rewrite nat_ascii_embedding by lia.
  replace ((97 <=? nat_of_ascii c - 32)%nat) with false; [reflexivity |].
  symmetry. apply Nat.leb_gt. lia.
Qed.

Lemma toUpperCase_idem (s : string) : toUpperCase (toUpperCase s) = toUpperCase s.
Proof.
  induction s as [| c s IH]; simpl; [reflexivity |].
  now rewrite upper_ascii_idem, IH.
Qed.

(** ** Stator and Reflector: reads stay inside the table *)


Lemma Reflector_new_Ok (label : string) (n : Z) (wiring : list Z) (moving : bool)
  (r : Reflector.t) :
  Reflector.new label n wiring moving = Ok r ->
  r = Reflector.mk label n wiring 0 moving 0 false
  /\ 0 < n /\ Z.of_nat (length wiring) = n.
Proof.
  unfold Reflector.new. intros Hnew.
  destruct (String.length label <? 1)%nat; [discriminate |].
  destruct (Z.leb_spec n 0) as [| Hpos]; [discriminate |].
  destruct (Z.eqb_spec (Z.of_nat (length wiring)) n) as [Hlen |]; [| discriminate].
  simpl in Hnew. injection Hnew as <-. auto.
Qed.

Lemma Reflector_encode_in_range (label : string) (n : Z) (wiring : list Z)
  (moving : bool) (r : Reflector.t) (index : Z) :
  Reflector.new label n wiring moving = Ok r ->
  Reflector.wiring r
    !! Z.to_nat (circular (index + Reflector.position r) (Reflector.numCharacters r))
  = Some (Reflector.encode r index).
Proof.
  intros Hnew. apply Reflector_new_Ok in Hnew as (-> & Hpos & Hlen).
  unfold Reflector.encode. simpl. apply array_get_lookup.
  rewrite Hlen. apply circular_range. exact Hpos.
Qed.

(** ** C9: the position of a Reflector *)

(** C9. After construction the position of a Reflector is in
    [0, numCharacters); [setup] with any integer keeps it there, sets the
    starting position in that range and the position equal to it; [advance]
    with any integer keeps it there, and changes nothing when [moving] is
    false. *)
Theorem Reflector_position_invariant :
  (forall label n wiring moving r,
      Reflector.new label n wiring moving = Ok r -> Reflector_inv r)
  /\ (forall r start,
        Reflector_inv r ->
        Reflector_inv (Reflector.setup r start)
        /\ 0 <= Reflector.startingPosition (Reflector.setup r start)
             < Reflector.numCharacters (Reflector.setup r start)
        /\ Reflector.position (Reflector.setup r start)
           = Reflector.startingPosition (Reflector.setup r start))
  /\ (forall r steps,
        Reflector_inv r -> Reflector_inv (Reflector.advance r steps))
  /\ (forall r steps,
        Reflector.moving r = false -> Reflector.advance r steps = r).
Proof.
  unfold Reflector_inv. split; [| split; [| split]].
  - intros label n wiring moving r Hnew.
    apply Reflector_new_Ok in Hnew as (-> & Hpos & _). simpl. lia.
  - intros r start Hinv.
    assert (Hrange : 0 <= circular start (Reflector.numCharacters r)
                     < Reflector.numCharacters r)
      by (apply circular_range; lia).
    simpl. auto.
  - intros r steps Hinv. unfold Reflector.advance.
    destruct (Reflector.moving r); simpl; [| exact Hinv].
    apply circular_range. lia.
  - intros r steps Hstatic. unfold Reflector.advance. now rewrite Hstatic.
Qed.

Lemma Reflector_position_invariant_witness :
  Reflector_inv movingReflector
  /\ Reflector_inv (Reflector.setup movingReflector (-3))
  /\ Reflector.position (Reflector.setup movingReflector (-3)) = 1
  /\ Reflector_inv (Reflector.advance (Reflector.setup movingReflector (-3)) 7)
  /\ Reflector.advance ModelM3.UKW_B 5 = ModelM3.UKW_B.
Proof.
  destruct Reflector_position_invariant as (Hnew & Hsetup & Hadvance & Hstatic).
  assert (Hinv : Reflector_inv movingReflector).
  { apply (Hnew "UKW-G"%string 4 [1; 0; 3; 2] true). reflexivity. }
  destruct (Hsetup movingReflector (-3) Hinv) as (Hinv' & _ & Hpos).
  split; [exact Hinv |]. split; [exact Hinv' |]. split.
  - rewrite Hpos. reflexivity.
  - split; [apply Hadvance; exact Hinv' | apply Hstatic; reflexivity].
Defined.

(** ** The wheel loops of [processCharacter] *)

Lemma advanceFrom_length (ws : list Wheel.t) :
  forall prev, length (advanceFrom prev ws) = length ws.
Proof.
  induction ws as [| w rest IH]; intros prev; simpl; [reflexivity |].
  now rewrite IH.
Qed.

Lemma forwardWheel_turn (m : Machine.t) (u : string) (done rest : list Wheel.t)
  (w : Wheel.t) (index : Z) (steps : list TraceStep) :
  exists text,
    Machine.forwardWheel m u (done ++ w :: rest, index, steps) w (length done)
    = ((done ++ [stepWheel (last done) w]) ++ rest,
       Wheel.encode (stepWheel (last done) w) index,
       (steps ++ [Machine.advanceStep text])
       ++ [Machine.encodeStep m u Op_Encode (Comp_Wheel (length done)) index
             (Wheel.encode (stepWheel (last done) w) index)]).
Proof.
  unfold Machine.forwardWheel.
  assert (Hins : forall w', <[length done := w']> (done ++ w :: rest)
                            = (done ++ [w']) ++ rest).
  { intros w'. rewrite <- (Nat.add_0_r (length done)) at 1.
    rewrite insert_app_r. simpl. now rewrite <- app_assoc. }
  destruct (last done) as [p |] eqn:Hlast.
  - apply last_Some in Hlast as [done0 ->].
    rewrite length_app. simpl length.
    replace (length done0 + 1 =? 0)%nat with false
      by (symmetry; apply Nat.eqb_neq; lia).
    replace (length done0 + 1 - 1)%nat with (length done0) by lia.
    rewrite <- app_assoc. simpl app. rewrite list_lookup_middle by reflexivity.
    specialize (Hins). rewrite length_app in Hins. simpl length in Hins.
    rewrite <- app_assoc in Hins. simpl app in Hins.
    simpl stepWheel. destruct (Wheel.atNotch p).
    + eexists. rewrite Hins. rewrite <- !app_assoc. simpl. reflexivity.
    + eexists. rewrite Hins. rewrite <- !app_assoc. simpl. reflexivity.
  - apply last_None in Hlast as ->. simpl. eexists. reflexivity.
Qed.

Lemma forward_loop_from (m : Machine.t) (u : string) (todo : list Wheel.t) :
  forall (done : list Wheel.t) (index : Z) (steps : list TraceStep),
  exists steps',
    fold_left (fun s '(ind, x) => Machine.forwardWheel m u s x ind)
              (zip (seq (length done) (length todo)) todo)
              (done ++ todo, index, steps)
    = (done ++ advanceFrom (last done) todo,
       encodeThrough (advanceFrom (last done) todo) index,
       steps')
    /\ map kind steps'
       = map kind steps ++ forwardKinds (length done) (length todo).
Proof.
  induction todo as [| w rest IH]; intros done index steps.
  - exists steps. simpl. unfold forwardKinds. simpl.
    rewrite !app_nil_r. split; reflexivity.
  - cbn [length seq zip_with fold_left].
    destruct (forwardWheel_turn m u done rest w index steps) as [text ->].
    destruct (IH (done ++ [stepWheel (last done) w])
                 (Wheel.encode (stepWheel (last done) w) index)
                 ((steps ++ [Machine.advanceStep text])
                  ++ [Machine.encodeStep m u Op_Encode (Comp_Wheel (length done)) index
                        (Wheel.encode (stepWheel (last done) w) index)]))
      as (steps' & Hfold & Hkinds).
    rewrite length_app in Hfold, Hkinds. simpl length in Hfold, Hkinds.
    replace (length done + 1)%nat with (S (length done)) in Hfold, Hkinds by lia.
    rewrite last_snoc in Hfold.
    exists steps'. split.
    + rewrite Hfold. simpl. now rewrite <- app_assoc.
    + rewrite Hkinds. rewrite !map_app. simpl. unfold forwardKinds. simpl.
      now rewrite <- !app_assoc.
Qed.

(** The loop of lines 218-245 advances the wheels as [advanceWheels] says,
    and passes the index through the advanced wheels in index order. *)
Lemma forward_loop (m : Machine.t) (u : string) (ws : list Wheel.t)
  (index : Z) (steps : list TraceStep) :
  exists steps',
    forEach ws (Machine.forwardWheel m u) (ws, index, steps)
    = (advanceWheels ws, encodeThrough (advanceWheels ws) index, steps')
    /\ map kind steps' = map kind steps ++ forwardKinds 0 (length ws).
Proof.
  destruct (forward_loop_from m u ws [] index steps) as (steps' & Hfold & Hkinds).
  exists steps'. split; [exact Hfold | exact Hkinds].
Qed.

Lemma fold_left_rev {A B : Type} (f : B -> A -> B) (l : list A) (b : B) :
  fold_left f (rev l) b = fold_right (fun x s => f s x) b l.
Proof.
  induction l as [| x l IH]; simpl; [reflexivity |].
  rewrite fold_left_app. simpl. now rewrite IH.
Qed.

Lemma reverse_loop_from (m : Machine.t) (u : string) (ws : list Wheel.t) :
  forall (first : nat) (index : Z) (steps : list TraceStep),
  exists steps',
    fold_right (fun p s => let '(ind, x) := p in Machine.reverseWheel m u s x ind)
               (index, steps) (zip (seq first (length ws)) ws)
    = (fold_right Wheel.encode index ws, steps')
    /\ map kind steps' = map kind steps ++ reverseKinds first (length ws).
Proof.
  induction ws as [| w rest IH]; intros first index steps.
  - exists steps. simpl. unfold reverseKinds. simpl.
    rewrite app_nil_r. split; reflexivity.
  - cbn [length seq zip_with fold_right].
    destruct (IH (S first) index steps) as (steps0 & -> & Hkinds).
    unfold Machine.reverseWheel at 1. eexists. split; [reflexivity |].
    rewrite map_app, Hkinds. unfold reverseKinds. simpl.
    now rewrite map_app, <- app_assoc.
Qed.

(** The loop of lines 272-285 passes the index through the wheels from the
    last to the first, each with the same [encode] as on the way in. *)
Lemma reverse_loop (m : Machine.t) (u : string) (ws : list Wheel.t)
  (index : Z) (steps : list TraceStep) :
  exists steps',
    forEachReverse ws (Machine.reverseWheel m u) (index, steps)
    = (encodeThrough (rev ws) index, steps')
    /\ map kind steps' = map kind steps ++ reverseKinds 0 (length ws).
Proof.
  destruct (reverse_loop_from m u ws 0%nat index steps) as (steps' & Hfold & Hkinds).
  exists steps'. split; [| exact Hkinds].
  unfold forEachReverse, encodeThrough.
  rewrite !fold_left_rev. exact Hfold.
Qed.

(** ** C7: the order of the substitutions *)

Lemma processCharacter_no_reflector (m : Machine.t) (char u : string) :
  Machine.reflector m = None ->
  Machine.processCharacter m char u = Throw (Error_NoReflector (Machine.label m)).
Proof. intros Hnone. unfold Machine.processCharacter, Machine.processCharacterWith. now rewrite Hnone. Qed.

Lemma processCharacter_single (m : Machine.t) (refl : Reflector.t)
  (c : ascii) (rest u : string) :
  Machine.reflector m = Some refl ->
  let index := getCharacterIndex (String (upper_ascii c) EmptyString)
                 (Machine.alphabet m) u in
  exists trace,
    Machine.processCharacter m (String c rest) u
    = Ok (fst (pipeline m refl index),
          (getCharacterFromIndex (snd (pipeline m refl index))
             (Machine.alphabet m) u, trace))
    /\ map kind (trace_steps trace) = pipelineKinds m refl.
Proof.
  intros Hrefl index. unfold Machine.processCharacter, Machine.processCharacterWith. rewrite Hrefl.
  cbn [char0 toUpperCase String.length Nat.eqb Nat.ltb Nat.leb orb].
  fold index. unfold pipeline, pipelineKinds, plug, plugKinds, moveReflector.
  destruct (Machine.plugboard m) as [pb |];
    (match goal with
     | |- context [forEach ?ws ?f (?ws, ?i, ?s)] =>
         destruct (forward_loop m u ws i s) as (steps1 & -> & Hk1)
     end);
    destruct (Reflector.moving refl);
    (match goal with
     | |- context [forEachReverse ?ws ?f (?i, ?s)] =>
         destruct (reverse_loop m u ws i s) as (steps2 & -> & Hk2)
     end);
    (eexists; split; [reflexivity |]);
    cbn [trace_steps fst snd];
    unfold advanceWheels in Hk2; rewrite advanceFrom_length in Hk2;
    rewrite ?map_app, Hk2, ?map_app, Hk1, ?map_app; cbn [map app kind];
    unfold Machine.encodeStep; cbn [op component];
    rewrite <- ?app_assoc; reflexivity.
Qed.

(** C7. For a single symbol, [processCharacter] fails when no reflector is
    installed; otherwise it advances the wheels and, if it moves, the
    reflector, and returns the symbol of the index taken through Plugboard
    (if installed), Stator, the wheels 0..N-1, the Reflector, the wheels
    N-1..0, Stator and Plugboard (if installed); its trace lists the
    operations in that order, each wheel's advance step right before its
    encoding on the way in, and the reflector's advance step right before
    the reflector. *)
Theorem processCharacter_order (m : Machine.t) (c : ascii) (u : string) :
  match Machine.reflector m with
  | None =>
      Machine.processCharacter m (String c EmptyString) u
      = Throw (Error_NoReflector (Machine.label m))
  | Some refl =>
      let index := getCharacterIndex (String (upper_ascii c) EmptyString)
                     (Machine.alphabet m) u in
      exists trace,
        Machine.processCharacter m (String c EmptyString) u
        = Ok (fst (pipeline m refl index),
              (getCharacterFromIndex (snd (pipeline m refl index))
                 (Machine.alphabet m) u, trace))
        /\ map kind (trace_steps trace) = pipelineKinds m refl
  end.
Proof.
  destruct (Machine.reflector m) as [refl |] eqn:Hrefl.
  - apply processCharacter_single. exact Hrefl.
  - apply processCharacter_no_reflector. exact Hrefl.
Qed.

(** ** The M3 of the examples *)

(** The preset components are what the constructors build. *)
Lemma ModelM3_constructed :
  Reflector.new "UKW-B" 26
    (ModelM3.wiringOf ModelM3.AlphabetABC "YRUHQSLDPXNGOKMIEBFZCWVJAT") false
  = Ok ModelM3.UKW_B
  /\ Stator.new "ETW" 26 (ModelM3.wiringOf ModelM3.AlphabetABC ModelM3.AlphabetABC)
     = Ok ModelM3.ETW
  /\ Machine.new "M3 (Kriegsmarine)" "abcdefghijklmnopqrstuvwxyz" ModelM3.ETW
       (Some [ModelM3.wheel_III; ModelM3.wheel_II; ModelM3.wheel_I])
       (Some ModelM3.UKW_B) None
     = Ok ModelM3.machine.
Proof. repeat split; vm_compute; reflexivity. Qed.

(** ** C1: reciprocity *)

(** C1 fails on the code. The M3 with wheels I, II, III and UKW-B is a valid
    machine at its starting configuration; there it encodes A as K, and
    from the same configuration it encodes K as D, not as A. *)
Theorem reciprocity_fails_on_M3 :
  validMachine ModelM3.machine = true
  /\ atStart ModelM3.machine = true
  /\ symbolOf (Machine.processCharacter ModelM3.machine "A" "X") = Ok "K"%string
  /\ symbolOf (Machine.processCharacter ModelM3.machine "K" "X") = Ok "D"%string.
Proof. repeat split; vm_compute; reflexivity. Qed.

(** ** C2: the way back through the wheels *)

(** On the way back every wheel applies [Wheel.encode], the substitution of
    the way in. *)
Lemma return_pass_is_forward (m : Machine.t) (u : string) (ws : list Wheel.t)
  (index : Z) (steps : list TraceStep) :
  fst (forEachReverse ws (Machine.reverseWheel m u) (index, steps))
  = fold_right Wheel.encode index ws.
Proof.
  destruct (reverse_loop m u ws index steps) as (steps' & -> & _).
  unfold encodeThrough. now rewrite fold_left_rev.
Qed.

(** C2 fails on the code. On the way back of the symbol A through the M3,
    wheel 2 (wheel I, at position 0) receives 10 and returns
    [encode 10 = 13], as on the way in; the inverse of its wiring takes 10
    to 1. *)
Theorem return_pass_not_inverse_on_M3 :
  returnSteps (Machine.processCharacter ModelM3.machine "A" "X")
  = [(2%nat, 10, 13); (1%nat, 13, 19); (0%nat, 19, 10)]
  /\ Wheel.encode ModelM3.wheel_I 10 = 13
  /\ Wheel_encodeInverse ModelM3.wheel_I 10 = Some 1.
Proof. repeat split; vm_compute; reflexivity. Qed.

(** ** C3: the stepping rule *)

(** The rule of the code: wheel 0 advances, and wheel [i+1] advances when
    wheel [i], after its own turn in this step, is at a notch. *)
Lemma stepping_of_the_code (m : Machine.t) (refl : Reflector.t) (c : ascii)
  (u : string) :
  Machine.reflector m = Some refl ->
  positionsOf (Machine.processCharacter m (String c EmptyString) u)
  = Ok (map Wheel.currentPosition (advanceWheels (Machine.wheels m))).
Proof.
  intros Hrefl.
  destruct (processCharacter_single m refl c EmptyString u Hrefl) as (trace & -> & _).
  reflexivity.
Qed.

(** C3 fails on the code. With wheel 0 at position 2, not at its notch
    before the step, the rule leaves wheel 1 where it is, and the code
    advances it (wheel 0 has reached its notch when wheel 1 is decided);
    with wheel 0 at its notch 3 before the step, the rule advances wheel 1,
    and the code does not. *)
Theorem stepping_reads_advanced_wheel :
  (map Wheel.atNotch (Machine.wheels (machineWithFirstWheelAt 2))
   = [false; false; false]
   /\ map Wheel.currentPosition
        (advanceWheels_snapshot (Machine.wheels (machineWithFirstWheelAt 2)))
      = [3; 0; 0]
   /\ positionsOf (Machine.processCharacter (machineWithFirstWheelAt 2) "A" "X")
      = Ok [3; 1; 0])
  /\ (map Wheel.atNotch (Machine.wheels (machineWithFirstWheelAt 3))
      = [true; false; false]
      /\ map Wheel.currentPosition
           (advanceWheels_snapshot (Machine.wheels (machineWithFirstWheelAt 3)))
         = [4; 1; 0]
      /\ positionsOf (Machine.processCharacter (machineWithFirstWheelAt 3) "A" "X")
         = Ok [4; 0; 0]).
Proof. repeat split; vm_compute; reflexivity. Qed.

(** ** C4: [validate] *)

(** [validate] raises whenever the entry wheel has no duplicate: its
    [validate] returns [undefined], which the spread of line 370 cannot
    iterate. *)
Lemma validate_throws_without_duplicates (m : Machine.t) :
  findDuplicates (Stator.mapping (Machine.entryWheel m)) = [] ->
  Machine.validate m = Throw TypeError_NotIterable.
Proof.
  intros Hdup. unfold Machine.validate, Stator.validate.
  rewrite Hdup. reflexivity.
Qed.

(** C4 fails on the code. [validate] on the M3, a valid machine, raises a
    [TypeError] and returns no list. *)
Theorem validate_raises_on_M3 :
  validMachine ModelM3.machine = true
  /\ Machine.validate ModelM3.machine = Throw TypeError_NotIterable.
Proof.
  split; [vm_compute; reflexivity |].
  apply validate_throws_without_duplicates. vm_compute. reflexivity.
Qed.

(** ** C5: [reset] *)

Lemma reset_wheels_from (todo : list Wheel.t) :
  forall done : list Wheel.t,
    fold_left (fun s '(ind, whl) => <[ind := Wheel.reset whl]> s)
              (zip (seq (length done) (length todo)) todo) (done ++ todo)
    = done ++ map Wheel.reset todo.
Proof.
  induction todo as [| w rest IH]; intros done; [reflexivity |].
  cbn [length seq zip_with fold_left map].
  rewrite <- (Nat.add_0_r (length done)) at 2. rewrite insert_app_r.
  cbn [insert list_insert].
  specialize (IH (done ++ [Wheel.reset w])).
  rewrite length_app, <- app_assoc in IH. cbn [length app] in IH.
  replace (length done + 1)%nat with (S (length done)) in IH by lia.
  rewrite IH. now rewrite <- app_assoc.
Qed.

(** Without a reflector, [reset] puts every wheel at its starting position
    and changes nothing else. *)
Lemma reset_without_reflector (m : Machine.t) :
  Machine.reflector m = None ->
  Machine.reset m = Ok (Machine.set_wheels m (map Wheel.reset (Machine.wheels m))).
Proof.
  intros Hnone. unfold Machine.reset, forEach. rewrite Hnone.
  pose proof (reset_wheels_from (Machine.wheels m) []) as Hloop.
  cbn [length app] in Hloop. now rewrite Hloop.
Qed.

(** With a reflector, [reset] calls [reset] on it, which the class
    Reflector does not define. *)
Lemma reset_with_reflector (m : Machine.t) (refl : Reflector.t) :
  Machine.reflector m = Some refl ->
  Machine.reset m = Throw (TypeError_NotAFunction "reset").
Proof. intros Hrefl. unfold Machine.reset. rewrite Hrefl. reflexivity. Qed.

(** C5 fails on the code. [reset] on the M3, which has a reflector
    installed, raises a [TypeError]. *)
Theorem reset_raises_on_M3 :
  Machine.reset ModelM3.machine = Throw (TypeError_NotAFunction "reset").
Proof. apply (reset_with_reflector _ ModelM3.UKW_B). reflexivity. Qed.

(** ** C6: malformed input *)

(** Only the first character of the input is read: what follows it changes
    neither the machine left nor the symbol returned. *)
Lemma processCharacter_reads_first (m : Machine.t) (c : ascii) (rest u : string) :
  outcome (Machine.processCharacter m (String c rest) u)
  = outcome (Machine.processCharacter m (String c EmptyString) u).
Proof.
  destruct (Machine.reflector m) as [refl |] eqn:Hrefl.
  - destruct (processCharacter_single m refl c rest u Hrefl) as (t1 & -> & _).
    destruct (processCharacter_single m refl c EmptyString u Hrefl) as (t2 & -> & _).
    reflexivity.
  - now rewrite !processCharacter_no_reflector.
Qed.

(** On the empty string, the read of [toUpperCase] on [char[0]], which is
    [undefined], raises before the length is checked. *)
Lemma processCharacter_empty (m : Machine.t) (refl : Reflector.t) (u : string) :
  Machine.reflector m = Some refl ->
  Machine.processCharacter m EmptyString u
  = Throw (TypeError_ReadOfUndefined "toUpperCase").
Proof. intros Hrefl. unfold Machine.processCharacter, Machine.processCharacterWith. now rewrite Hrefl. Qed.

(** C6 fails on the code. On the M3, [processCharacter("AB")] raises nothing
    and returns K, the encoding of A; [processCharacter("")] raises the
    [TypeError] of the runtime, not the error of line 170. *)
Theorem input_length_error_not_raised :
  symbolOf (Machine.processCharacter ModelM3.machine "AB" "X") = Ok "K"%string
  /\ symbolOf (Machine.processCharacter ModelM3.machine "A" "X") = Ok "K"%string
  /\ Machine.processCharacter ModelM3.machine "" "X"
     = Throw (TypeError_ReadOfUndefined "toUpperCase")
  /\ Machine.processCharacter ModelM3.machine "" "X" <> Throw Error_InputLength.
Proof.
  repeat split; try (vm_compute; reflexivity).
  rewrite (processCharacter_empty _ ModelM3.UKW_B) by reflexivity. discriminate.
Qed.

(** ** C8: [processMessage] *)

Lemma string_append_cons (x : ascii) (a b : string) :
  String.append (String x a) b = String x (String.append a b).
Proof. reflexivity. Qed.

Lemma string_append_assoc (a b c : string) :
  String.append (String.append a b) c = String.append a (String.append b c).
Proof.
  induction a as [| x a IH]; [reflexivity |].
  rewrite !string_append_cons. now rewrite IH.
Qed.

Lemma string_append_empty (a : string) : String.append a EmptyString = a.
Proof.
  induction a as [| x a IH]; [reflexivity |].
  rewrite string_append_cons. now rewrite IH.
Qed.

Lemma split_chars_length (s : string) : length (split_chars s) = String.length s.
Proof. induction s as [| c s IH]; simpl; [reflexivity | now rewrite IH]. Qed.

Lemma split_chars_single (s : string) :
  Forall (fun char => exists c, char = String c EmptyString) (split_chars s).
Proof.
  induction s as [| c s IH]; simpl; constructor; [| exact IH].
  exists c. reflexivity.
Qed.

Lemma foldStep_Throw (u : string) (chars : list string) (e : Exception) :
  fold_left (foldStep u) chars (Throw e) = Throw e.
Proof. induction chars as [| char rest IH]; simpl; [reflexivity | exact IH]. Qed.

Lemma mapChars_fold (u : string) (chars : list string) :
  forall (m : Machine.t) (traces : list Trace) (out : string),
    ('(m', traces', results) ← Machine.mapChars u chars (m, traces);
     Ok (m', (String.append out (join results), traces')))
    = fold_left (foldStep u) chars (Ok (m, (out, traces))).
Proof.
  induction chars as [| char rest IH]; intros m traces out.
  - simpl. now rewrite string_append_empty.
  - cbn [Machine.mapChars fold_left]. unfold foldStep at 2.
    cbn [mbind Result_bind].
    destruct (Machine.processCharacter m char u) as [[m1 [symbol trace]] | e].
    + cbn [mbind Result_bind]. rewrite <- IH.
      destruct (Machine.mapChars u rest (m1, traces ++ [trace]))
        as [[[m2 traces2] results] | e]; cbn [mbind Result_bind]; [| reflexivity].
      cbn [join fold_right]. now rewrite string_append_assoc.
    + cbn [mbind Result_bind]. now rewrite foldStep_Throw.
Qed.

Lemma mapChars_counts (u : string) (chars : list string) :
  forall (m m' : Machine.t) (traces traces' : list Trace) (results : list string),
    Machine.mapChars u chars (m, traces) = Ok (m', traces', results) ->
    length traces' = (length traces + length chars)%nat
    /\ length results = length chars.
Proof.
  induction chars as [| char rest IH]; intros m m' traces traces' results Hmap.
  - simpl in Hmap. injection Hmap as <- <- <-. simpl. lia.
  - cbn [Machine.mapChars mbind Result_bind] in Hmap.
    destruct (Machine.processCharacter m char u) as [[m1 [symbol trace]] | e];
      [| discriminate].
    cbn [mbind Result_bind] in Hmap.
    destruct (Machine.mapChars u rest (m1, traces ++ [trace]))
      as [[[m2 traces2] results2] | e] eqn:Hrest; [| discriminate].
    cbn [mbind Result_bind] in Hmap. injection Hmap as <- <- <-.
    apply IH in Hrest as [Htr Hres]. rewrite length_app in Htr. simpl in *. lia.
Qed.

Lemma mapChars_total (u : string) (chars : list string) :
  Forall (fun char => exists c, char = String c EmptyString) chars ->
  forall (m : Machine.t) (traces : list Trace) (refl : Reflector.t),
    Machine.reflector m = Some refl ->
    is_Ok (Machine.mapChars u chars (m, traces)) = true.
Proof.
  induction 1 as [| char rest [c ->] _ IH]; intros m traces refl Hrefl;
    [reflexivity |].
  cbn [Machine.mapChars mbind Result_bind].
  destruct (processCharacter_single m refl c EmptyString u Hrefl) as (trace & -> & _).
  cbn [mbind Result_bind fst snd pipeline].
  match goal with
  | |- context [Machine.mapChars u rest (?m1, ?t1)] =>
      specialize (IH m1 t1 (moveReflector refl) eq_refl);
      destruct (Machine.mapChars u rest (m1, t1)) as [[[m2 traces2] results2] | e]
  end; [reflexivity | discriminate].
Qed.

(** C8. [processMessage] on the empty message returns it with no trace and
    raises nothing; on every message it is the fold of [processCharacter]
    over the symbols in order, which appends each output symbol and each
    trace; a result has one trace per symbol of the message; and a machine
    with a reflector returns a result. *)
Theorem processMessage_fold :
  (forall m u, Machine.processMessage m EmptyString u = Ok (m, (EmptyString, [])))
  /\ (forall m msg u, Machine.processMessage m msg u = foldCharacters m msg u)
  /\ (forall m msg u m' out traces,
         Machine.processMessage m msg u = Ok (m', (out, traces)) ->
         length traces = String.length msg)
  /\ (forall m msg u refl,
         Machine.reflector m = Some refl ->
         is_Ok (Machine.processMessage m msg u) = true).
Proof.
  split; [reflexivity |]. split; [| split].
  - intros m msg u. unfold Machine.processMessage, foldCharacters.
    destruct msg as [| c rest]; [reflexivity |].
    cbn [String.length Nat.eqb].
    rewrite <- mapChars_fold.
    destruct (Machine.mapChars u (split_chars (String c rest)) (m, []))
      as [[[m1 traces1] results1] | e]; reflexivity.
  - intros m msg u m' out traces. unfold Machine.processMessage.
    destruct msg as [| c rest].
    + simpl. intros Hret. injection Hret as <- <- <-. reflexivity.
    + cbn [String.length Nat.eqb].
      destruct (Machine.mapChars u (split_chars (String c rest)) (m, []))
        as [[[m1 traces1] results1] | e] eqn:Hmap;
        cbn [mbind Result_bind]; [| discriminate].
      intros Hret. injection Hret as <- <- <-.
      apply mapChars_counts in Hmap as [Htr _].
      rewrite Htr, split_chars_length. reflexivity.
  - intros m msg u refl Hrefl. unfold Machine.processMessage.
    destruct msg as [| c rest]; [reflexivity |].
    cbn [String.length Nat.eqb].
    pose proof (mapChars_total u _ (split_chars_single (String c rest)) m [] refl Hrefl)
      as Htotal.
    destruct (Machine.mapChars u (split_chars (String c rest)) (m, []))
      as [[[m1 traces1] results1] | e]; [reflexivity | discriminate].
Qed.

Lemma processMessage_fold_witness :
  Machine.processMessage ModelM3.machine "" "X"
  = Ok (ModelM3.machine, (EmptyString, []))
  /\ Machine.processMessage ModelM3.machine "AK" "X"
     = foldCharacters ModelM3.machine "AK" "X"
  /\ (forall m' out traces,
         Machine.processMessage ModelM3.machine "AK" "X" = Ok (m', (out, traces)) ->
         length traces = 2%nat)
  /\ is_Ok (Machine.processMessage ModelM3.machine "AK" "X") = true.
Proof.
  destruct processMessage_fold as (Hempty & Hfold & Hcount & Htotal).
  split; [apply Hempty |]. split; [apply Hfold |]. split.
  - intros m' out traces Hret. apply (Hcount _ _ _ _ _ _ Hret).
  - apply (Htotal _ _ _ ModelM3.UKW_B). reflexivity.
Defined.

(** ** C10: upper and lower case *)

Lemma Machine_new_Ok (label alphabet : string) (etw : Stator.t)
  (ws : option (list Wheel.t)) (ukw : option Reflector.t)
  (pb : option Plugboard.t) (m : Machine.t) :
  Machine.new label alphabet etw ws ukw pb = Ok m ->
  (String.length label <=? 0)%nat = false
  /\ (String.length alphabet =? 0)%nat = false
  /\ m = Machine.mk label (toUpperCase alphabet)
           (Z.of_nat (String.length (toUpperCase alphabet))) pb etw
           (default [] ws) ukw.
Proof.
  unfold Machine.new, Machine.newWith. intros Hnew.
  destruct (String.length label <=? 0)%nat; [discriminate |].
  destruct (String.length alphabet =? 0)%nat; [discriminate |].
  injection Hnew as <-. auto.
Qed.

(** On ASCII strings the two upper-casing functions agree. *)
Lemma upper_latin1_ascii (c : ascii) :
  (nat_of_ascii c < 128)%nat ->
  upper_latin1 c = String (upper_ascii c) EmptyString.
Proof.
  intros Hascii. unfold upper_latin1, upper_ascii, is_lower.
  destruct (Nat.eqb_spec (nat_of_ascii c) 223) as [Heq | _]; [lia |].
  destruct (Nat.leb_spec 97 (nat_of_ascii c)),
           (Nat.leb_spec (nat_of_ascii c) 122),
           (Nat.leb_spec 224 (nat_of_ascii c)),
           (Nat.leb_spec (nat_of_ascii c) 246),
           (Nat.leb_spec 248 (nat_of_ascii c)),
           (Nat.leb_spec (nat_of_ascii c) 254);
    cbn; try reflexivity; lia.
Qed.







(** * Further properties of the components *)

(** ** The constructors *)

Lemma string_length_zero (s : string) : String.length s = 0%nat <-> s = EmptyString.
Proof. destruct s; simpl; split; intros H; try reflexivity; discriminate. Qed.

Lemma string_length_lt_1 (s : string) :
  (String.length s <? 1)%nat = true <-> s = EmptyString.
Proof.
  rewrite Nat.ltb_lt, <- string_length_zero. lia.
Qed.


(** X1. The constructor of Stator returns exactly when the label is not
    empty, the number of characters is positive and the map has that
    length, and then stores the three arguments; otherwise it raises the
    TypeError of the first parameter that fails, in the order label,
    numChars, map. *)
Theorem Stator_new_cases (label : string) (n : Z) (map : list Z) :
  (forall s, Stator.new label n map = Ok s
             <-> label <> EmptyString /\ 0 < n /\ Z.of_nat (length map) = n
                 /\ s = Stator.mk label n map)
  /\ (label = EmptyString ->
      Stator.new label n map = Throw (TypeError_Construct "Stator" 1))
  /\ (label <> EmptyString -> n <= 0 ->
      Stator.new label n map = Throw (TypeError_Construct "Stator" 2))
  /\ (label <> EmptyString -> 0 < n -> Z.of_nat (length map) <> n ->
      Stator.new label n map = Throw (TypeError_Construct "Stator" 3)).
Proof.
  unfold Stator.new.
  destruct (String.length label <? 1)%nat eqn:Hlabel.
  { apply string_length_lt_1 in Hlabel.
    repeat split; try congruence; intros; try discriminate; tauto. }
  assert (Hne : label <> EmptyString).
  { intros Hempty. apply string_length_lt_1 in Hempty. congruence. }
  destruct (Z.leb_spec n 0) as [Hn | Hn].
  { repeat split; try congruence; intros; try discriminate; try lia; tauto. }
  destruct (Z.eqb_spec (Z.of_nat (length map)) n) as [Hlen | Hlen]; simpl.
  - repeat split; try congruence; try lia; try tauto.
    intros (_ & _ & _ & ->). reflexivity.
  - repeat split; try congruence; intros; try discriminate; try lia; tauto.
Qed.

Lemma Stator_new_cases_witness :
  Stator.new "ETW" 3 [2; 0; 1] = Ok (Stator.mk "ETW" 3 [2; 0; 1])
  /\ Stator.new "" 3 [2; 0; 1] = Throw (TypeError_Construct "Stator" 1)
  /\ Stator.new "ETW" 0 [] = Throw (TypeError_Construct "Stator" 2)
  /\ Stator.new "ETW" 3 [2; 0] = Throw (TypeError_Construct "Stator" 3).
Proof.
  split; [| split; [| split]].
  - apply (Stator_new_cases "ETW" 3 [2; 0; 1]).
    split; [discriminate | split; [lia | split; reflexivity]].
  - apply (Stator_new_cases "" 3 [2; 0; 1]). reflexivity.
  - apply (Stator_new_cases "ETW" 0 []); [discriminate | lia].
  - apply (Stator_new_cases "ETW" 3 [2; 0]); [discriminate | lia | simpl; lia].
Defined.

(** X4. The constructor of Reflector returns exactly when the label is not
    empty, the number of characters is positive and the wiring has that
    length; the Reflector then stands at position 0 with starting position
    0, not set up, [moving] as given. Otherwise it raises the TypeError of
    the first parameter that fails. *)
Theorem Reflector_new_cases (label : string) (n : Z) (wiring : list Z)
  (moving : bool) :
  (forall r, Reflector.new label n wiring moving = Ok r
             <-> label <> EmptyString /\ 0 < n /\ Z.of_nat (length wiring) = n
                 /\ r = Reflector.mk label n wiring 0 moving 0 false)
  /\ (label = EmptyString ->
      Reflector.new label n wiring moving
      = Throw (TypeError_Construct "Reflector" 1))
  /\ (label <> EmptyString -> n <= 0 ->
      Reflector.new label n wiring moving
      = Throw (TypeError_Construct "Reflector" 2))
  /\ (label <> EmptyString -> 0 < n -> Z.of_nat (length wiring) <> n ->
      Reflector.new label n wiring moving
      = Throw (TypeError_Construct "Reflector" 3)).
Proof.
  unfold Reflector.new.
  destruct (String.length label <? 1)%nat eqn:Hlabel.
  { apply string_length_lt_1 in Hlabel.
    repeat split; try congruence; intros; try discriminate; tauto. }
  assert (Hne : label <> EmptyString).
  { intros Hempty. apply string_length_lt_1 in Hempty. congruence. }
  destruct (Z.leb_spec n 0) as [Hn | Hn].
  { repeat split; try congruence; intros; try discriminate; try lia; tauto. }
  destruct (Z.eqb_spec (Z.of_nat (length wiring)) n) as [Hlen | Hlen]; simpl.
  - repeat split; try congruence; try lia; try tauto.
    intros (_ & _ & _ & ->). reflexivity.
  - repeat split; try congruence; intros; try discriminate; try lia; tauto.
Qed.

Lemma Reflector_new_cases_witness :
  Reflector.new "UKW" 2 [1; 0] true = Ok (Reflector.mk "UKW" 2 [1; 0] 0 true 0 false)
  /\ Reflector.new "" 2 [1; 0] true = Throw (TypeError_Construct "Reflector" 1)
  /\ Reflector.new "UKW" (-1) [1; 0] true = Throw (TypeError_Construct "Reflector" 2)
  /\ Reflector.new "UKW" 2 [1; 0; 2] true = Throw (TypeError_Construct "Reflector" 3).
Proof.
  split; [| split; [| split]].
  - apply (Reflector_new_cases "UKW" 2 [1; 0] true).
    split; [discriminate | split; [lia | split; reflexivity]].
  - apply (Reflector_new_cases "" 2 [1; 0] true). reflexivity.
  - apply (Reflector_new_cases "UKW" (-1) [1; 0] true); [discriminate | lia].
  - apply (Reflector_new_cases "UKW" 2 [1; 0; 2] true);
      [discriminate | lia | simpl; lia].
Defined.

(** X9. The constructor of Machine returns exactly when the label and the
    alphabet are not empty; the Machine then has as many characters as the
    alphabet given, the components given, and no wheel when the wheels are
    left out. An empty label raises the TypeError of parameter 0, and an
    empty alphabet under a label that is not empty that of parameter 1. *)
Theorem Machine_new_cases (label alphabet : string) (etw : Stator.t)
  (ws : option (list Wheel.t)) (ukw : option Reflector.t)
  (pb : option Plugboard.t) :
  (forall m, Machine.new label alphabet etw ws ukw pb = Ok m
             <-> label <> EmptyString /\ alphabet <> EmptyString
                 /\ m = Machine.mk label (toUpperCase alphabet)
                          (Z.of_nat (String.length alphabet)) pb etw
                          (default [] ws) ukw)
  /\ (label = EmptyString ->
      Machine.new label alphabet etw ws ukw pb
      = Throw (TypeError_Construct "Machine" 0))
  /\ (label <> EmptyString -> alphabet = EmptyString ->
      Machine.new label alphabet etw ws ukw pb
      = Throw (TypeError_Construct "Machine" 1)).
Proof.
  unfold Machine.new, Machine.newWith. rewrite string_length_toUpperCase.
  destruct (String.length label <=? 0)%nat eqn:Hlabel.
  { apply Nat.leb_le in Hlabel.
    assert (label = EmptyString) by (apply string_length_zero; lia).
    repeat split; try congruence; intros; try discriminate; tauto. }
  assert (Hne : label <> EmptyString).
  { intros Hempty. apply string_length_zero in Hempty.
    apply Nat.leb_gt in Hlabel. lia. }
  destruct (String.length alphabet =? 0)%nat eqn:Halpha.
  { apply Nat.eqb_eq, string_length_zero in Halpha.
    repeat split; try congruence; intros; try discriminate; tauto. }
  assert (Hna : alphabet <> EmptyString).
  { intros Hempty. apply string_length_zero in Hempty.
    apply Nat.eqb_neq in Halpha. lia. }
  repeat split; try congruence; try tauto.
  intros (_ & _ & ->). reflexivity.
Qed.

Lemma Machine_new_cases_witness :
  Machine.new "M" "ab" ModelM3.ETW None None None
  = Ok (Machine.mk "M" "AB" 2 None ModelM3.ETW [] None)
  /\ Machine.new "" "ab" ModelM3.ETW None None None
     = Throw (TypeError_Construct "Machine" 0)
  /\ Machine.new "M" "" ModelM3.ETW None None None
     = Throw (TypeError_Construct "Machine" 1).
Proof.
  split; [| split].
  - apply (Machine_new_cases "M" "ab" ModelM3.ETW None None None).
    split; [discriminate | split; [discriminate | reflexivity]].
  - apply (Machine_new_cases "" "ab" ModelM3.ETW None None None). reflexivity.
  - apply (Machine_new_cases "M" "" ModelM3.ETW None None None);
      [discriminate | reflexivity].
Defined.

(** ** Stator and Reflector: encoding *)



Lemma Reflector_wf_new (label : string) (n : Z) (wiring : list Z) (moving : bool)
  (r : Reflector.t) :
  Reflector.new label n wiring moving = Ok r -> Reflector_wf r.
Proof.
  intros Hnew. apply Reflector_new_Ok in Hnew as (-> & Hn & Hlen).
  split; assumption.
Qed.

Lemma Reflector_wf_setup (r : Reflector.t) (start : Z) :
  Reflector_wf r -> Reflector_wf (Reflector.setup r start).
Proof. intros Hwf. exact Hwf. Qed.

Lemma Reflector_wf_advance (r : Reflector.t) (steps : Z) :
  Reflector_wf r -> Reflector_wf (Reflector.advance r steps).
Proof.
  intros Hwf. unfold Reflector.advance.
  destruct (Reflector.moving r); exact Hwf.
Qed.

(** X5. A Reflector keeps the shape its constructor gave it through [setup]
    and [advance], and in that shape [encode] returns an entry of the
    wiring for every index; indices that differ by a multiple of the number
    of characters encode alike, as long as the sum of the index and the
    position is exact for both. *)
Theorem Reflector_encode_normalises :
  (forall label n wiring moving r,
      Reflector.new label n wiring moving = Ok r -> Reflector_wf r)
  /\ (forall r start steps,
         Reflector_wf r ->
         Reflector_wf (Reflector.setup r start)
         /\ Reflector_wf (Reflector.advance r steps))
  /\ (forall r index,
         Reflector_wf r -> Reflector.encode r index ∈ Reflector.wiring r)
  /\ (forall r index k,
         Reflector_wf r ->
         exactSum index (Reflector.position r) ->
         exactSum (index + k * Reflector.numCharacters r) (Reflector.position r) ->
         Reflector.encode r (index + k * Reflector.numCharacters r)
         = Reflector.encode r index).
Proof.
  split; [exact Reflector_wf_new |]. split; [| split].
  - intros r start steps Hwf.
    split; [now apply Reflector_wf_setup | now apply Reflector_wf_advance].
  - intros r index [Hn Hlen].
    apply (list_elem_of_lookup_2 _
             (Z.to_nat (circular (index + Reflector.position r)
                          (Reflector.numCharacters r)))).
    apply array_get_lookup. rewrite Hlen. apply circular_range. exact Hn.
  - intros r index k [Hn Hlen] _ _.
    unfold Reflector.encode, circular.
    replace (index + k * Reflector.numCharacters r + Reflector.position r)
      with (index + Reflector.position r + k * Reflector.numCharacters r) by ring.
    now rewrite Z.mod_add by lia.
Qed.

Lemma Reflector_encode_normalises_witness :
  Reflector_wf (Reflector.advance (Reflector.setup movingReflector 6) (-9))
  /\ Reflector.encode (Reflector.advance (Reflector.setup movingReflector 6) (-9)) (-5)
     ∈ [1; 0; 3; 2]
  /\ Reflector.encode movingReflector (-5 + 3 * 4)
     = Reflector.encode movingReflector (-5).
Proof.
  destruct Reflector_encode_normalises as (Hnew & Hkept & Hentry & Hperiod).
  assert (Hwf : Reflector_wf movingReflector).
  { apply (Hnew "UKW-G"%string 4 [1; 0; 3; 2] true). reflexivity. }
  assert (Hwf' : Reflector_wf
                   (Reflector.advance (Reflector.setup movingReflector 6) (-9))).
  { apply (Hkept _ 0 (-9)). apply (Hkept _ 6 0). exact Hwf. }
  split; [exact Hwf' |]. split.
  - apply (Hentry _ (-5) Hwf').
  - apply (Hperiod movingReflector (-5) 3 Hwf);
      unfold exactSum, safeInteger; repeat split; vm_compute; discriminate.
Defined.

(** X7. Advancing a Reflector by [steps] shifts its input by [steps]: a
    static one encodes as before, and a moving one, advanced by [steps],
    encodes [index] as it encoded [index + steps] before, as long as the
    sums of the position, the steps and the index are exact. *)
Theorem Reflector_advance_shifts_encode (r : Reflector.t) (steps index : Z) :
  (Reflector.moving r = false ->
   Reflector.encode (Reflector.advance r steps) index = Reflector.encode r index)
  /\ (Reflector.moving r = true ->
      exactSum (Reflector.position r) steps ->
      exactSum index (Reflector.position (Reflector.advance r steps)) ->
      exactSum index steps ->
      exactSum (index + steps) (Reflector.position r) ->
      Reflector.encode (Reflector.advance r steps) index
      = Reflector.encode r (index + steps)).
Proof.
  split.
  - intros Hstatic. unfold Reflector.advance. now rewrite Hstatic.
  - intros Hmoving _ _ _ _. unfold Reflector.advance. rewrite Hmoving.
    unfold Reflector.encode, circular. cbn [negb Reflector.position
      Reflector.numCharacters Reflector.wiring].
    rewrite Zplus_mod_idemp_r.
    replace (index + (Reflector.position r + steps))
      with (index + steps + Reflector.position r) by ring.
    reflexivity.
Qed.

Lemma Reflector_advance_shifts_encode_witness :
  Reflector.encode (Reflector.advance ModelM3.UKW_B 7) 5
  = Reflector.encode ModelM3.UKW_B 5
  /\ Reflector.encode (Reflector.advance movingReflector 7) (-2)
     = Reflector.encode movingReflector (-2 + 7).
Proof.
  split.
  - apply (Reflector_advance_shifts_encode ModelM3.UKW_B 7 5). reflexivity.
  - apply (Reflector_advance_shifts_encode movingReflector 7 (-2));
      [reflexivity | | | |]; unfold exactSum, safeInteger; repeat split; vm_compute; discriminate.
Defined.

(** ** Reflector: positions *)

(** X6. On a Reflector whose position is an index of its alphabet, steps
    add up as long as the sums are exact: advancing by [a] and then by [b]
    is advancing by [a + b]; a full turn, like no step at all, leaves the
    Reflector as it is. *)
Theorem Reflector_advance_composes (r : Reflector.t) :
  Reflector_inv r ->
  (forall a b : Z,
      exactSum (Reflector.position r) a ->
      exactSum (Reflector.position (Reflector.advance r a)) b ->
      exactSum a b ->
      exactSum (Reflector.position r) (a + b) ->
      Reflector.advance (Reflector.advance r a) b = Reflector.advance r (a + b))
  /\ (exactSum (Reflector.position r) (Reflector.numCharacters r) ->
      Reflector.advance r (Reflector.numCharacters r) = r)
  /\ Reflector.advance r 0 = r.
Proof.
  intros Hinv. unfold Reflector_inv in Hinv. destruct r as [l n w s mv p init].
  unfold Reflector.advance. cbn in *.
  destruct mv; cbn; [| repeat split; reflexivity].
  unfold circular. split; [| split].
  - intros a b _ _ _ _. rewrite Zplus_mod_idemp_l. now rewrite Z.add_assoc.
  - intros _. replace ((p + n) mod n) with p; [reflexivity |].
    replace (p + n) with (p + 1 * n) by ring.
    rewrite Z.mod_add by lia. now rewrite Z.mod_small by lia.
  - rewrite Z.add_0_r. now rewrite Z.mod_small by lia.
Qed.

Lemma Reflector_advance_composes_witness :
  Reflector.advance (Reflector.advance movingReflector 3) (-5)
  = Reflector.advance movingReflector (3 + -5)
  /\ Reflector.advance movingReflector 4 = movingReflector
  /\ Reflector.advance movingReflector 0 = movingReflector.
Proof.
  assert (Hinv : Reflector_inv movingReflector) by (unfold Reflector_inv; simpl; lia).
  destruct (Reflector_advance_composes movingReflector Hinv) as (Hadd & Hturn & Hzero).
  split; [| split; [| exact Hzero]].
  - apply Hadd; unfold exactSum, safeInteger; repeat split; vm_compute; discriminate.
  - apply Hturn; unfold exactSum, safeInteger; repeat split; vm_compute; discriminate.
Defined.

(** X8. [setup] forgets where the Reflector stood: after an earlier [setup]
    or any [advance] it gives the same Reflector as on the original one;
    starting positions that differ by a multiple of the number of characters
    give the same Reflector; and a Reflector set up at [start] encodes
    [index] as the one set up at 0 encodes [index + start], as long as the
    sums of the index with the position and with [start] are exact. *)
Theorem Reflector_setup_overrides (r : Reflector.t) (a start k index : Z) :
  Reflector.setup (Reflector.setup r a) start = Reflector.setup r start
  /\ Reflector.setup (Reflector.advance r a) start = Reflector.setup r start
  /\ Reflector.setup r (start + k * Reflector.numCharacters r)
     = Reflector.setup r start
  /\ Reflector.isSetup (Reflector.setup r start) = true
  /\ (exactSum index (Reflector.position (Reflector.setup r start)) ->
      exactSum index start ->
      Reflector.encode (Reflector.setup r start) index
      = Reflector.encode (Reflector.setup r 0) (index + start)).
Proof.
  split; [reflexivity |]. split; [| split; [| split; [reflexivity |]]].
  - destruct r as [l n w s mv p init]. destruct mv; reflexivity.
  - unfold Reflector.setup, circular.
    destruct (Z.eq_dec (Reflector.numCharacters r) 0) as [Hzero | Hnz].
    + rewrite Hzero, Z.mul_0_r, Z.add_0_r. reflexivity.
    + now rewrite Z.mod_add by exact Hnz.
  - intros _ _. unfold Reflector.encode, Reflector.setup, circular.
    cbn [Reflector.position Reflector.numCharacters Reflector.wiring].
    rewrite Zplus_mod_idemp_r. rewrite Zmod_0_l, Z.add_0_r. reflexivity.
Qed.

Lemma Reflector_setup_overrides_witness :
  Reflector.encode (Reflector.setup movingReflector 6) (-3)
  = Reflector.encode (Reflector.setup movingReflector 0) (-3 + 6).
Proof.
  apply (Reflector_setup_overrides movingReflector 0 6 0 (-3));
    unfold exactSum, safeInteger; repeat split; vm_compute; discriminate.
Defined.

(** ** Stator and Reflector: [validate] *)

(** X3. [validate] of a Stator and of a Reflector never returns an empty
    array: it returns [undefined] exactly when the table has no duplicate,
    and otherwise one finding for each duplicate found. *)
Theorem validate_undefined_or_findings :
  (forall s : Stator.t,
      Stator.validate s <> Some []
      /\ (Stator.validate s = None <-> findDuplicates (Stator.mapping s) = [])
      /\ (forall errs, Stator.validate s = Some errs ->
                       errs = map (fun '(ind, val) => Stator_Duplicate ind val)
                                  (findDuplicates (Stator.mapping s))))
  /\ (forall r : Reflector.t,
         Reflector.validate r <> Some []
         /\ (Reflector.validate r = None <-> findDuplicates (Reflector.wiring r) = [])
         /\ (forall errs, Reflector.validate r = Some errs ->
                          errs = map (fun '(ind, val) => Reflector_Duplicate ind val)
                                     (findDuplicates (Reflector.wiring r)))).
Proof.
  split.
  - intros s. unfold Stator.validate.
    destruct (findDuplicates (Stator.mapping s)) as [| [ind val] rest]; cbn.
    + repeat split; congruence.
    + repeat split; try congruence;
        try (intros errs Herrs; now injection Herrs as <-).
  - intros r. unfold Reflector.validate.
    destruct (findDuplicates (Reflector.wiring r)) as [| [ind val] rest]; cbn.
    + repeat split; congruence.
    + repeat split; try congruence;
        try (intros errs Herrs; now injection Herrs as <-).
Qed.

Lemma validate_undefined_or_findings_witness :
  Stator.validate (Stator.mk "ETW" 3 [1; 1; 1]) <> Some []
  /\ [Stator_Duplicate 1 1; Stator_Duplicate 2 1]
     = map (fun '(ind, val) => Stator_Duplicate ind val) (findDuplicates [1; 1; 1])
  /\ Reflector.validate ModelM3.UKW_B = None.
Proof.
  destruct validate_undefined_or_findings as [Hstator Hreflector].
  destruct (Hstator (Stator.mk "ETW" 3 [1; 1; 1])) as (Hne & _ & Herrs).
  split; [exact Hne |]. split.
  - apply Herrs. vm_compute. reflexivity.
  - apply (Hreflector ModelM3.UKW_B). vm_compute. reflexivity.
Defined.

(** * Further properties of the Machine *)

(** ** The trace of a symbol *)

Lemma chainEnd_app (cur : Z) (l1 l2 : list TraceStep) :
  chainEnd cur (l1 ++ l2)
  = match chainEnd cur l1 with
    | Some mid => chainEnd mid l2
    | None => None
    end.
Proof.
  revert cur. induction l1 as [| s l1 IH]; intros cur; [reflexivity |].
  cbn [app chainEnd].
  destruct (input s) as [i |], (output s) as [o |]; try reflexivity.
  - destruct (i =? cur); [apply IH | reflexivity].
  - apply IH.
Qed.

Lemma chainEnd_app_Some (cur mid final : Z) (l1 l2 : list TraceStep) :
  chainEnd cur l1 = Some mid -> chainEnd mid l2 = Some final ->
  chainEnd cur (l1 ++ l2) = Some final.
Proof. intros H1 H2. now rewrite chainEnd_app, H1. Qed.

Lemma encodeStep_chain (m : Machine.t) (u : string) (o : Op) (c : Component)
  (i out : Z) :
  chainEnd i [Machine.encodeStep m u o c i out] = Some out.
Proof. cbn. now rewrite Z.eqb_refl. Qed.

Lemma encodeStep_labelled (m : Machine.t) (u : string) (o : Op) (c : Component)
  (i out : Z) :
  stepLabelled m u (Machine.encodeStep m u o c i out).
Proof. split; reflexivity. Qed.

Lemma forward_trace_from (m : Machine.t) (u : string) (todo : list Wheel.t) :
  forall (done : list Wheel.t) (index : Z) (steps : list TraceStep),
  exists added,
    fold_left (fun s '(ind, x) => Machine.forwardWheel m u s x ind)
              (zip (seq (length done) (length todo)) todo)
              (done ++ todo, index, steps)
    = (done ++ advanceFrom (last done) todo,
       encodeThrough (advanceFrom (last done) todo) index,
       steps ++ added)
    /\ chainEnd index added
       = Some (encodeThrough (advanceFrom (last done) todo) index)
    /\ Forall (stepLabelled m u) added.
Proof.
  induction todo as [| w rest IH]; intros done index steps.
  - exists []. cbn. rewrite !app_nil_r. repeat split. constructor.
  - cbn [length seq zip_with fold_left].
    destruct (forwardWheel_turn m u done rest w index steps) as [text ->].
    destruct (IH (done ++ [stepWheel (last done) w])
                 (Wheel.encode (stepWheel (last done) w) index)
                 ((steps ++ [Machine.advanceStep text])
                  ++ [Machine.encodeStep m u Op_Encode (Comp_Wheel (length done)) index
                        (Wheel.encode (stepWheel (last done) w) index)]))
      as (added & Hfold & Hchain & Hlabelled).
    rewrite length_app in Hfold. cbn [length] in Hfold.
    replace (length done + 1)%nat with (S (length done)) in Hfold by lia.
    rewrite last_snoc in Hfold, Hchain.
    eexists ([Machine.advanceStep text;
              Machine.encodeStep m u Op_Encode (Comp_Wheel (length done)) index
                (Wheel.encode (stepWheel (last done) w) index)] ++ added).
    split; [| split].
    + rewrite Hfold. cbn [advanceFrom encodeThrough fold_left app].
      rewrite <- !app_assoc. reflexivity.
    + cbn [app chainEnd Machine.advanceStep Machine.encodeStep input output].
      rewrite Z.eqb_refl. exact Hchain.
    + apply Forall_app. split; [| exact Hlabelled].
      repeat constructor; apply encodeStep_labelled.
Qed.

Lemma forward_trace (m : Machine.t) (u : string) (ws : list Wheel.t)
  (index : Z) (steps : list TraceStep) :
  exists added,
    forEach ws (Machine.forwardWheel m u) (ws, index, steps)
    = (advanceWheels ws, encodeThrough (advanceWheels ws) index, steps ++ added)
    /\ chainEnd index added = Some (encodeThrough (advanceWheels ws) index)
    /\ Forall (stepLabelled m u) added.
Proof. exact (forward_trace_from m u ws [] index steps). Qed.

Lemma reverse_trace_from (m : Machine.t) (u : string) (ws : list Wheel.t) :
  forall (first : nat) (index : Z) (steps : list TraceStep),
  exists added,
    fold_right (fun p s => let '(ind, x) := p in Machine.reverseWheel m u s x ind)
               (index, steps) (zip (seq first (length ws)) ws)
    = (fold_right Wheel.encode index ws, steps ++ added)
    /\ chainEnd index added = Some (fold_right Wheel.encode index ws)
    /\ Forall (stepLabelled m u) added.
Proof.
  induction ws as [| w rest IH]; intros first index steps.
  - exists []. cbn. rewrite app_nil_r. repeat split. constructor.
  - cbn [length seq zip_with fold_right].
    destruct (IH (S first) index steps) as (added & -> & Hchain & Hlabelled).
    unfold Machine.reverseWheel at 1.
    eexists (added ++ [_]). split; [| split].
    + rewrite app_assoc. reflexivity.
    + rewrite chainEnd_app, Hchain. apply encodeStep_chain.
    + apply Forall_app. split; [exact Hlabelled |].
      repeat constructor; apply encodeStep_labelled.
Qed.

Lemma reverse_trace (m : Machine.t) (u : string) (ws : list Wheel.t)
  (index : Z) (steps : list TraceStep) :
  exists added,
    forEachReverse ws (Machine.reverseWheel m u) (index, steps)
    = (encodeThrough (rev ws) index, steps ++ added)
    /\ chainEnd index added = Some (encodeThrough (rev ws) index)
    /\ Forall (stepLabelled m u) added.
Proof.
  destruct (reverse_trace_from m u ws 0%nat index steps)
    as (added & Hfold & Hchain & Hlabelled).
  exists added. unfold forEachReverse, encodeThrough.
  rewrite !fold_left_rev. auto.
Qed.

Ltac chain_steps :=
  lazymatch goal with
  | |- chainEnd _ (_ ++ _) = Some _ =>
      eapply chainEnd_app_Some;
      [ | first [ apply encodeStep_chain | eassumption | reflexivity ] ];
      chain_steps
  | |- chainEnd _ [] = Some _ => reflexivity
  end.

(** What [processCharacter] returns for an input that is not empty, on a
    machine with a reflector: the machine and the symbol of [pipeline], and
    a trace that leads from the index of the input to the index of the
    output. *)
Lemma processCharacter_traced (m : Machine.t) (refl : Reflector.t) (c : ascii)
  (rest u : string) :
  Machine.reflector m = Some refl ->
  let index := getCharacterIndex (String (upper_ascii c) EmptyString)
                 (Machine.alphabet m) u in
  exists trace,
    Machine.processCharacter m (String c rest) u
    = Ok (fst (pipeline m refl index), (trace_outputChar trace, trace))
    /\ trace_inputRaw trace = String c rest
    /\ trace_inputChar trace = String (upper_ascii c) EmptyString
    /\ trace_inputIndex trace = index
    /\ trace_outputIndex trace = snd (pipeline m refl index)
    /\ trace_outputChar trace
       = getCharacterFromIndex (trace_outputIndex trace) (Machine.alphabet m) u
    /\ chainEnd (trace_inputIndex trace) (trace_steps trace)
       = Some (trace_outputIndex trace)
    /\ Forall (stepLabelled m u) (trace_steps trace).
Proof.
  intros Hrefl index. unfold Machine.processCharacter, Machine.processCharacterWith. rewrite Hrefl.
  cbn [char0 toUpperCase String.length Nat.eqb Nat.ltb Nat.leb orb].
  fold index. unfold pipeline, plug, moveReflector.
  destruct (Machine.plugboard m) as [pb |];
    (match goal with
     | |- context [forEach ?ws ?f (?ws, ?i, ?s)] =>
         destruct (forward_trace m u ws i s) as (added1 & -> & Hc1 & Hl1)
     end);
    destruct (Reflector.moving refl);
    (match goal with
     | |- context [forEachReverse ?ws ?f (?i, ?s)] =>
         destruct (reverse_trace m u ws i s) as (added2 & -> & Hc2 & Hl2)
     end);
    (eexists (mkTrace _ _ _ _ _ _); split; [reflexivity |]);
    cbn [trace_inputRaw trace_inputChar trace_inputIndex trace_outputIndex
         trace_outputChar trace_steps fst snd];
    (repeat split;
     [ chain_steps
     | rewrite !Forall_app; repeat split;
       try assumption; repeat constructor; apply encodeStep_labelled ]).
Qed.

(** X13. The trace that [processCharacter] returns is consistent: it keeps
    the raw input, the upper-case form of its first character and that
    character's index; the steps that record indices form a chain from the
    index of the input to the index of the output, each taking up what the
    step before left; every step shows the symbols of its indices; and the
    symbol returned is the output symbol of the trace, the symbol of the
    output index. *)
Theorem processCharacter_trace_chain (m m' : Machine.t) (char u symbol : string)
  (trace : Trace) :
  Machine.processCharacter m char u = Ok (m', (symbol, trace)) ->
  trace_inputRaw trace = char
  /\ Some (trace_inputChar trace) = option_map toUpperCase (char0 char)
  /\ trace_inputIndex trace
     = getCharacterIndex (trace_inputChar trace) (Machine.alphabet m) u
  /\ chainEnd (trace_inputIndex trace) (trace_steps trace)
     = Some (trace_outputIndex trace)
  /\ Forall (stepLabelled m u) (trace_steps trace)
  /\ trace_outputChar trace
     = getCharacterFromIndex (trace_outputIndex trace) (Machine.alphabet m) u
  /\ symbol = trace_outputChar trace.
Proof.
  intros Hret.
  destruct (Machine.reflector m) as [refl |] eqn:Hrefl;
    [| rewrite processCharacter_no_reflector in Hret by exact Hrefl; discriminate].
  destruct char as [| c rest];
    [rewrite (processCharacter_empty m refl u Hrefl) in Hret; discriminate |].
  destruct (processCharacter_traced m refl c rest u Hrefl)
    as (t & Heq & Hraw & Hchar & Hindex & _ & Hout & Hchain & Hlabelled).
  rewrite Heq in Hret. injection Hret as _ <- <-.
  rewrite Hchar. cbn [char0 option_map toUpperCase].
  repeat split; assumption.
Qed.

Lemma processCharacter_trace_chain_witness :
  match Machine.processCharacter ModelM3.machine "ab" "X" with
  | Ok (m', (symbol, trace)) =>
      trace_inputRaw trace = "ab"%string
      /\ Some (trace_inputChar trace) = Some "A"%string
      /\ chainEnd (trace_inputIndex trace) (trace_steps trace)
         = Some (trace_outputIndex trace)
      /\ symbol = trace_outputChar trace
  | Throw _ => False
  end.
Proof.
  destruct (Machine.processCharacter ModelM3.machine "ab" "X")
    as [[m' [symbol trace]] | e] eqn:Hret; [| vm_compute in Hret; discriminate].
  destruct (processCharacter_trace_chain ModelM3.machine m' "ab" "X" symbol trace Hret)
    as (Hraw & Hchar & _ & Hchain & _ & _ & Hsymbol).
  auto.
Defined.

(** ** What [processCharacter] changes *)

(** X10. The reflector is checked first: without one, [processCharacter]
    raises the no-reflector error on every input, the empty one included;
    with one, the empty input raises the TypeError of the read of
    [toUpperCase] on [undefined], and every input of one character returns
    a result. *)
Theorem processCharacter_error_precedence (m : Machine.t) (u : string) :
  (Machine.reflector m = None ->
   forall char, Machine.processCharacter m char u
                = Throw (Error_NoReflector (Machine.label m)))
  /\ (Machine.reflector m <> None ->
      Machine.processCharacter m EmptyString u
      = Throw (TypeError_ReadOfUndefined "toUpperCase")
      /\ forall c, is_Ok (Machine.processCharacter m (String c EmptyString) u) = true).
Proof.
  split.
  - intros Hnone char. now apply processCharacter_no_reflector.
  - intros Hsome. destruct (Machine.reflector m) as [refl |] eqn:Hrefl; [| congruence].
    split; [now apply (processCharacter_empty m refl) |].
    intros c.
    destruct (processCharacter_single m refl c EmptyString u Hrefl) as (t & -> & _).
    reflexivity.
Qed.

Lemma processCharacter_error_precedence_witness :
  Machine.processCharacter (Machine.set_reflector ModelM3.machine None) "" "X"
  = Throw (Error_NoReflector "M3 (Kriegsmarine)")
  /\ Machine.processCharacter ModelM3.machine "" "X"
     = Throw (TypeError_ReadOfUndefined "toUpperCase")
  /\ is_Ok (Machine.processCharacter ModelM3.machine "?" "X") = true.
Proof.
  destruct (processCharacter_error_precedence
              (Machine.set_reflector ModelM3.machine None) "X") as [Hnone _].
  destruct (processCharacter_error_precedence ModelM3.machine "X") as [_ Hsome].
  split; [apply Hnone; reflexivity |].
  destruct Hsome as [Hempty Hone]; [discriminate |].
  split; [exact Hempty | apply Hone].
Defined.

(** X11. [processCharacter] changes the wheels and the reflector only: the
    label, the alphabet, the number of characters, the plugboard and the
    entry wheel of the machine it leaves are those it found, there are as
    many wheels as before, and the reflector is the one it found, advanced
    by one step if it is a moving one. *)
Theorem processCharacter_frame (m m' : Machine.t) (char u symbol : string)
  (trace : Trace) :
  Machine.processCharacter m char u = Ok (m', (symbol, trace)) ->
  Machine.label m' = Machine.label m
  /\ Machine.alphabet m' = Machine.alphabet m
  /\ Machine.numCharacters m' = Machine.numCharacters m
  /\ Machine.plugboard m' = Machine.plugboard m
  /\ Machine.entryWheel m' = Machine.entryWheel m
  /\ length (Machine.wheels m') = length (Machine.wheels m)
  /\ exists refl,
       Machine.reflector m = Some refl
       /\ Machine.reflector m'
          = Some (if Reflector.moving refl then Reflector.advance refl 1 else refl).
Proof.
  intros Hret.
  destruct (Machine.reflector m) as [refl |] eqn:Hrefl;
    [| rewrite processCharacter_no_reflector in Hret by exact Hrefl; discriminate].
  destruct char as [| c rest];
    [rewrite (processCharacter_empty m refl u Hrefl) in Hret; discriminate |].
  destruct (processCharacter_single m refl c rest u Hrefl) as (t & Heq & _).
  rewrite Heq in Hret. injection Hret as <- _ _.
  cbn. unfold advanceWheels. rewrite advanceFrom_length.
  repeat split. exists refl. split; reflexivity.
Qed.

Lemma processCharacter_frame_witness :
  match Machine.processCharacter ModelM3.machine "A" "X" with
  | Ok (m', (symbol, trace)) =>
      Machine.entryWheel m' = ModelM3.ETW
      /\ length (Machine.wheels m') = 3%nat
      /\ Machine.reflector m' = Some ModelM3.UKW_B
  | Throw _ => False
  end.
Proof.
  destruct (Machine.processCharacter ModelM3.machine "A" "X")
    as [[m' [symbol trace]] | e] eqn:Hret; [| vm_compute in Hret; discriminate].
  destruct (processCharacter_frame ModelM3.machine m' "A" "X" symbol trace Hret)
    as (_ & _ & _ & _ & Hetw & Hlen & refl & Hrefl & Hrefl').
  injection Hrefl as <-. auto.
Defined.

Lemma advanceFrom_by_one (ws : list Wheel.t) :
  forall prev,
    Forall2 (fun w w' => w' = w \/ w' = Wheel.advance w 1) ws (advanceFrom prev ws).
Proof.
  induction ws as [| w rest IH]; intros prev; cbn [advanceFrom]; constructor.
  - unfold stepWheel. destruct prev as [p |]; [destruct (Wheel.atNotch p) |]; auto.
  - apply IH.
Qed.

(** X12. In one call of [processCharacter] no wheel moves by more than one
    step: every wheel is left as it was or advanced by one step, and the
    first wheel is always advanced by one step. *)
Theorem processCharacter_wheels_step (m m' : Machine.t) (char u symbol : string)
  (trace : Trace) :
  Machine.processCharacter m char u = Ok (m', (symbol, trace)) ->
  Forall2 (fun w w' => w' = w \/ w' = Wheel.advance w 1)
          (Machine.wheels m) (Machine.wheels m')
  /\ head (Machine.wheels m') = option_map (fun w => Wheel.advance w 1)
                                           (head (Machine.wheels m)).
Proof.
  intros Hret.
  destruct (Machine.reflector m) as [refl |] eqn:Hrefl;
    [| rewrite processCharacter_no_reflector in Hret by exact Hrefl; discriminate].
  destruct char as [| c rest];
    [rewrite (processCharacter_empty m refl u Hrefl) in Hret; discriminate |].
  destruct (processCharacter_single m refl c rest u Hrefl) as (t & Heq & _).
  rewrite Heq in Hret. injection Hret as <- _ _. cbn. split.
  - apply advanceFrom_by_one.
  - destruct (Machine.wheels m); reflexivity.
Qed.

Lemma processCharacter_wheels_step_witness :
  match Machine.processCharacter ModelM3.machine "A" "X" with
  | Ok (m', (symbol, trace)) =>
      head (Machine.wheels m') = Some (Wheel.advance ModelM3.wheel_III 1)
  | Throw _ => False
  end.
Proof.
  destruct (Machine.processCharacter ModelM3.machine "A" "X")
    as [[m' [symbol trace]] | e] eqn:Hret; [| vm_compute in Hret; discriminate].
  apply (processCharacter_wheels_step ModelM3.machine m' "A" "X" symbol trace Hret).
Defined.

(** ** [processMessage] *)

(** A result of [processCharacter] comes from a machine with a reflector
    and an input with a first character. *)
Lemma processCharacter_Ok_inv (m m' : Machine.t) (char u symbol : string)
  (trace : Trace) :
  Machine.processCharacter m char u = Ok (m', (symbol, trace)) ->
  exists refl c rest,
    Machine.reflector m = Some refl
    /\ char = String c rest
    /\ Machine.reflector m' = Some (moveReflector refl)
    /\ trace_inputRaw trace = char
    /\ symbol = trace_outputChar trace.
Proof.
  intros Hret.
  destruct (Machine.reflector m) as [refl |] eqn:Hrefl;
    [| rewrite processCharacter_no_reflector in Hret by exact Hrefl; discriminate].
  destruct char as [| c rest];
    [rewrite (processCharacter_empty m refl u Hrefl) in Hret; discriminate |].
  destruct (processCharacter_traced m refl c rest u Hrefl)
    as (t & Heq & Hraw & _).
  rewrite Heq in Hret. injection Hret as <- <- <-.
  exists refl, c, rest. repeat split. exact Hraw.
Qed.

Lemma processMessage_is_fold (m : Machine.t) (msg u : string) :
  Machine.processMessage m msg u = foldCharacters m msg u.
Proof.
  unfold Machine.processMessage, foldCharacters.
  destruct msg as [| c rest]; [reflexivity |].
  cbn [String.length Nat.eqb]. rewrite <- mapChars_fold.
  destruct (Machine.mapChars u (split_chars (String c rest)) (m, []))
    as [[[m1 traces1] results1] | e]; reflexivity.
Qed.

Lemma split_chars_app (a b : string) :
  split_chars (String.append a b) = split_chars a ++ split_chars b.
Proof.
  induction a as [| x a IH]; [reflexivity |].
  rewrite string_append_cons. cbn [split_chars app]. now rewrite IH.
Qed.

Lemma foldStep_shift (u : string) (chars : list string) :
  forall (m : Machine.t) (out : string) (traces : list Trace),
    fold_left (foldStep u) chars (Ok (m, (out, traces)))
    = ('(m', (out', traces')) ← fold_left (foldStep u) chars
                                   (Ok (m, (EmptyString, [])));
       Ok (m', (String.append out out', traces ++ traces'))).
Proof.
  induction chars as [| char rest IH]; intros m out traces.
  - cbn. now rewrite string_append_empty, app_nil_r.
  - cbn [fold_left]. unfold foldStep at 2 4. cbn [mbind Result_bind].
    destruct (Machine.processCharacter m char u) as [[m1 [symbol trace]] | e];
      cbn [mbind Result_bind].
    + rewrite (IH m1 (String.append out symbol) (traces ++ [trace])).
      rewrite (IH m1 (String.append EmptyString symbol) ([] ++ [trace])).
      destruct (fold_left (foldStep u) rest (Ok (m1, (EmptyString, []))))
        as [[m2 [out2 traces2]] | e]; cbn [mbind Result_bind]; [| reflexivity].
      change (String.append EmptyString symbol) with symbol.
      now rewrite string_append_assoc, <- app_assoc.
    + now rewrite !foldStep_Throw.
Qed.

(** X15. A message can be processed in parts: processing [a] and then, on
    the machine this leaves, [b], and joining the two outputs and the two
    lists of traces, is processing the message [a] followed by [b]; an
    error in either part is the error of the whole. *)
Theorem processMessage_app (m : Machine.t) (a b u : string) :
  Machine.processMessage m (String.append a b) u
  = ('(m1, (out1, traces1)) ← Machine.processMessage m a u;
     '(m2, (out2, traces2)) ← Machine.processMessage m1 b u;
     Ok (m2, (String.append out1 out2, traces1 ++ traces2))).
Proof.
  rewrite !processMessage_is_fold. unfold foldCharacters.
  rewrite split_chars_app, fold_left_app.
  destruct (fold_left (foldStep u) (split_chars a) (Ok (m, (EmptyString, []))))
    as [[m1 [out1 traces1]] | e]; cbn [mbind Result_bind].
  - rewrite processMessage_is_fold. unfold foldCharacters. apply foldStep_shift.
  - apply foldStep_Throw.
Qed.

Lemma mapChars_no_reflector (u : string) (m : Machine.t) (traces : list Trace)
  (char : string) (rest : list string) :
  Machine.reflector m = None ->
  Machine.mapChars u (char :: rest) (m, traces)
  = Throw (Error_NoReflector (Machine.label m)).
Proof.
  intros Hnone. cbn [Machine.mapChars].
  now rewrite processCharacter_no_reflector by exact Hnone.
Qed.

(** X14. [processMessage] returns a result exactly when the message is
    empty or a reflector is installed; on a message that is not empty, a
    machine without a reflector raises the no-reflector error. *)
Theorem processMessage_returns_iff (m : Machine.t) (msg u : string) :
  (is_Ok (Machine.processMessage m msg u) = true
   <-> msg = EmptyString \/ Machine.reflector m <> None)
  /\ (msg <> EmptyString -> Machine.reflector m = None ->
      Machine.processMessage m msg u
      = Throw (Error_NoReflector (Machine.label m))).
Proof.
  assert (Hthrow : msg <> EmptyString -> Machine.reflector m = None ->
                   Machine.processMessage m msg u
                   = Throw (Error_NoReflector (Machine.label m))).
  { intros Hmsg Hnone. destruct msg as [| c rest]; [congruence |].
    unfold Machine.processMessage. cbn [String.length Nat.eqb split_chars].
    now rewrite mapChars_no_reflector by exact Hnone. }
  split; [| exact Hthrow]. split.
  - intros Hok. destruct msg as [| c rest]; [now left | right].
    intros Hnone. rewrite Hthrow in Hok by (congruence || exact Hnone).
    discriminate.
  - intros [-> | Hsome]; [reflexivity |].
    destruct (Machine.reflector m) as [refl |] eqn:Hrefl; [| congruence].
    unfold Machine.processMessage.
    destruct msg as [| c rest]; [reflexivity |].
    cbn [String.length Nat.eqb].
    pose proof (mapChars_total u _ (split_chars_single (String c rest)) m [] refl Hrefl)
      as Htotal.
    destruct (Machine.mapChars u (split_chars (String c rest)) (m, []))
      as [[[m1 traces1] results1] | e]; [reflexivity | discriminate].
Qed.

Lemma processMessage_returns_iff_witness :
  is_Ok (Machine.processMessage ModelM3.machine "HELLO" "X") = true
  /\ Machine.processMessage (Machine.set_reflector ModelM3.machine None) "HELLO" "X"
     = Throw (Error_NoReflector "M3 (Kriegsmarine)").
Proof.
  split.
  - apply (processMessage_returns_iff ModelM3.machine "HELLO" "X").
    right. discriminate.
  - apply (processMessage_returns_iff
             (Machine.set_reflector ModelM3.machine None) "HELLO" "X");
      [discriminate | reflexivity].
Defined.

Lemma mapChars_traces (u : string) (chars : list string) :
  forall (m m' : Machine.t) (traces traces' : list Trace) (results : list string),
    Machine.mapChars u chars (m, traces) = Ok (m', traces', results) ->
    exists added,
      traces' = traces ++ added
      /\ map trace_inputRaw added = chars
      /\ map trace_outputChar added = results.
Proof.
  induction chars as [| char rest IH]; intros m m' traces traces' results Hmap.
  - cbn in Hmap. injection Hmap as <- <- <-. exists []. now rewrite app_nil_r.
  - cbn [Machine.mapChars mbind Result_bind] in Hmap.
    destruct (Machine.processCharacter m char u) as [[m1 [symbol trace]] | e] eqn:Hchar;
      [| discriminate].
    cbn [mbind Result_bind] in Hmap.
    destruct (Machine.mapChars u rest (m1, traces ++ [trace]))
      as [[[m2 traces2] results2] | e] eqn:Hrest; [| discriminate].
    cbn [mbind Result_bind] in Hmap. injection Hmap as <- <- <-.
    apply IH in Hrest as (added & -> & Hraw & Hout).
    apply processCharacter_Ok_inv in Hchar as (_ & _ & _ & _ & _ & _ & Hr & Hs).
    exists (trace :: added). rewrite <- app_assoc. cbn [app map].
    rewrite Hraw, Hout, Hr, Hs. auto.
Qed.

(** X16. The traces of a message tell the message and its output: the raw
    inputs of the traces, in order, are the characters of the message, and
    the output string is the concatenation of the output symbols of the
    traces. *)
Theorem processMessage_traces_record (m m' : Machine.t) (msg u out : string)
  (traces : list Trace) :
  Machine.processMessage m msg u = Ok (m', (out, traces)) ->
  map trace_inputRaw traces = split_chars msg
  /\ out = join (map trace_outputChar traces).
Proof.
  unfold Machine.processMessage. destruct msg as [| c rest].
  - cbn. intros Hret. injection Hret as <- <- <-. split; reflexivity.
  - cbn [String.length Nat.eqb].
    destruct (Machine.mapChars u (split_chars (String c rest)) (m, []))
      as [[[m1 traces1] results1] | e] eqn:Hmap;
      cbn [mbind Result_bind]; [| discriminate].
    intros Hret. injection Hret as <- <- <-.
    apply mapChars_traces in Hmap as (added & -> & Hraw & Hout).
    cbn [app]. now rewrite Hraw, Hout.
Qed.

Lemma processMessage_traces_record_witness :
  match Machine.processMessage ModelM3.machine "ak" "X" with
  | Ok (m', (out, traces)) =>
      map trace_inputRaw traces = ["a"; "k"]%string
      /\ out = join (map trace_outputChar traces)
  | Throw _ => False
  end.
Proof.
  destruct (Machine.processMessage ModelM3.machine "ak" "X")
    as [[m' [out traces]] | e] eqn:Hret; [| vm_compute in Hret; discriminate].
  apply (processMessage_traces_record ModelM3.machine m' "ak" "X" out traces Hret).
Defined.

(** ** [validate] and [reset] *)

Lemma filter_map_none {A : Type} (p : Finding -> bool) (g : A -> Finding)
  (l : list A) :
  (forall x, p (g x) = false) -> List.filter p (map g l) = [].
Proof.
  intros Hnone. induction l as [| x l IH]; cbn; [reflexivity |].
  now rewrite Hnone.
Qed.

Lemma filter_wheel_findings (n : Z) (ws : list Wheel.t) :
  forall first : nat,
    List.filter assemblyFinding
      (concat (imap (fun ind whl =>
          (if negb (Wheel.numCharacters whl =? n)
           then [Machine_WheelCount (first + ind)] else [])
          ++ map (Machine_WheelFinding (first + ind)) (Wheel.validate whl)) ws))
    = concat (imap (fun ind whl =>
          if negb (Wheel.numCharacters whl =? n)
          then [Machine_WheelCount (first + ind)] else []) ws).
Proof.
  induction ws as [| w rest IH]; intros first; [reflexivity |].
  rewrite !imap_cons. cbn [concat]. rewrite !List.filter_app.
  rewrite filter_map_none by reflexivity. rewrite app_nil_r.
  f_equal.
  - destruct (negb (Wheel.numCharacters w =? n)); reflexivity.
  - specialize (IH (S first)).
    erewrite (imap_ext _ (fun ind whl => _ ++ _)) by
      (intros i x _; cbn; rewrite <- Nat.add_succ_comm; reflexivity).
    rewrite IH. apply f_equal, imap_ext. intros i x _. cbn.
    now rewrite <- Nat.add_succ_comm.
Qed.

(** Of the list that [validate] returns, the findings about the assembly
    are those the machine calls for, in their order. *)
Lemma validate_assembly (m : Machine.t) (errs : list Finding) :
  Machine.validate m = Ok errs ->
  List.filter assemblyFinding errs = assemblyFindings m.
Proof.
  unfold Machine.validate, Stator.validate, Reflector.validate,
    Plugboard.validate, spread, assemblyFindings.
  intros Hret.
  destruct (negb (length (findDuplicates (Stator.mapping (Machine.entryWheel m))) =? 0)%nat);
    cbn [mbind Result_bind] in Hret; [| discriminate].
  pose proof (filter_wheel_findings (Machine.numCharacters m) (Machine.wheels m) 0)
    as Hwheels. cbn [Nat.add] in Hwheels.
  destruct (Machine.reflector m) as [refl |].
  - destruct (negb (length (findDuplicates (Reflector.wiring refl)) =? 0)%nat);
      cbn [mbind Result_bind] in Hret; [| discriminate].
    injection Hret as <-.
    destruct (Machine.plugboard m) as [pb |];
      destruct (negb (Stator.numCharacters (Machine.entryWheel m)
                      =? Machine.numCharacters m));
      destruct (negb (Reflector.numCharacters refl =? Machine.numCharacters m));
      try destruct (negb (Plugboard.numCharacters pb =? Machine.numCharacters m));
      rewrite ?List.filter_app, Hwheels;
      rewrite ?(filter_map_none assemblyFinding) by (intros [? ?]; reflexivity);
      cbn [List.filter assemblyFinding app]; rewrite ?app_nil_r, <- ?app_assoc;
      cbn [app]; reflexivity.
  - cbn [mbind Result_bind] in Hret. injection Hret as <-.
    destruct (Machine.plugboard m) as [pb |];
      destruct (negb (Stator.numCharacters (Machine.entryWheel m)
                      =? Machine.numCharacters m));
      try destruct (negb (Plugboard.numCharacters pb =? Machine.numCharacters m));
      rewrite ?List.filter_app, Hwheels;
      rewrite ?(filter_map_none assemblyFinding) by (intros [? ?]; reflexivity);
      cbn [List.filter assemblyFinding app]; rewrite ?app_nil_r, <- ?app_assoc;
      cbn [app]; reflexivity.
Qed.

#[local] Set Warnings "-clear-no-such-hyp".

Lemma in_wheel_counts (n : Z) (ws : list Wheel.t) (f : Finding) :
  In f (concat (imap (fun ind whl =>
                        if negb (Wheel.numCharacters whl =? n)
                        then [Machine_WheelCount ind] else []) ws))
  <-> exists ind w, ws !! ind = Some w /\ Wheel.numCharacters w <> n
                    /\ f = Machine_WheelCount ind.
Proof.
  rewrite in_concat. split.
  - intros (errs & Herrs & Hf).
    apply list_elem_of_In, elem_of_lookup_imap in Herrs as (ind & w & -> & Hw).
    destruct (Z.eqb_spec (Wheel.numCharacters w) n) as [| Hne]; cbn in Hf;
      [contradiction |].
    destruct Hf as [<- | []]. exists ind, w. auto.
  - intros (ind & w & Hw & Hne & ->). eexists. split.
    + apply list_elem_of_In, elem_of_lookup_imap.
      exists ind, w. split; [reflexivity | exact Hw].
    + destruct (Z.eqb_spec (Wheel.numCharacters w) n); [contradiction | now left].
Qed.

Lemma in_assemblyFindings (m : Machine.t) (f : Finding) :
  In f (assemblyFindings m)
  <-> (f = Machine_EntryWheelCount
       /\ Stator.numCharacters (Machine.entryWheel m) <> Machine.numCharacters m)
      \/ (exists ind w, Machine.wheels m !! ind = Some w
                        /\ Wheel.numCharacters w <> Machine.numCharacters m
                        /\ f = Machine_WheelCount ind)
      \/ (f = Machine_NoReflector /\ Machine.reflector m = None)
      \/ (exists refl, f = Machine_ReflectorCount
                       /\ Machine.reflector m = Some refl
                       /\ Reflector.numCharacters refl <> Machine.numCharacters m)
      \/ (exists pb, f = Machine_PlugboardCount
                     /\ Machine.plugboard m = Some pb
                     /\ Plugboard.numCharacters pb <> Machine.numCharacters m).
Proof.
  unfold assemblyFindings. rewrite !in_app_iff, in_wheel_counts.
  destruct (Machine.reflector m) as [refl |], (Machine.plugboard m) as [pb |];
    destruct (Z.eqb_spec (Stator.numCharacters (Machine.entryWheel m))
                (Machine.numCharacters m));
    try destruct (Z.eqb_spec (Reflector.numCharacters refl) (Machine.numCharacters m));
    try destruct (Z.eqb_spec (Plugboard.numCharacters pb) (Machine.numCharacters m));
    cbn [negb In]; naive_solver.
Qed.

(** X18. When [validate] returns its list, the findings in it about the
    assembly are exactly those the machine calls for, each once and in the
    order entry wheel, wheels, reflector, plugboard: the list holds the
    missing-reflector finding exactly when no reflector is installed, and
    the count finding of the entry wheel, of wheel [ind], of the reflector
    and of the plugboard exactly when that component is installed with a
    number of characters that is not the machine's. *)
Theorem validate_findings (m : Machine.t) (errs : list Finding) :
  Machine.validate m = Ok errs ->
  List.filter assemblyFinding errs = assemblyFindings m
  /\ (In Machine_NoReflector errs <-> Machine.reflector m = None)
  /\ (In Machine_EntryWheelCount errs
      <-> Stator.numCharacters (Machine.entryWheel m) <> Machine.numCharacters m)
  /\ (forall ind,
         In (Machine_WheelCount ind) errs
         <-> exists w, Machine.wheels m !! ind = Some w
                       /\ Wheel.numCharacters w <> Machine.numCharacters m)
  /\ (In Machine_ReflectorCount errs
      <-> exists refl, Machine.reflector m = Some refl
                       /\ Reflector.numCharacters refl <> Machine.numCharacters m)
  /\ (In Machine_PlugboardCount errs
      <-> exists pb, Machine.plugboard m = Some pb
                     /\ Plugboard.numCharacters pb <> Machine.numCharacters m).
Proof.
  intros Hret. apply validate_assembly in Hret.
  assert (Hin : forall f, assemblyFinding f = true ->
                          (In f errs <-> In f (assemblyFindings m))).
  { intros f Hf. rewrite <- Hret, filter_In. tauto. }
  split; [exact Hret |].
  split; [| split; [| split; [| split]]]; try intros ind;
    rewrite Hin by reflexivity; rewrite in_assemblyFindings; naive_solver.
Qed.

(** A machine of two characters whose entry wheel maps both to 0, with one
    wheel of three characters and no reflector. *)
Lemma validate_findings_witness :
  In Machine_NoReflector
     [Stator_Duplicate 1 0; Machine_WheelCount 0; Machine_NoReflector]
  /\ In (Machine_WheelCount 0)
        [Stator_Duplicate 1 0; Machine_WheelCount 0; Machine_NoReflector]
  /\ ~ In Machine_EntryWheelCount
          [Stator_Duplicate 1 0; Machine_WheelCount 0; Machine_NoReflector].
Proof.
  destruct (validate_findings
              (Machine.mk "M" "AB" 2 None (Stator.mk "ETW" 2 [0; 0])
                 [Wheel.mk "I" 3 [0; 1; 2] [] 0 0] None)
              [Stator_Duplicate 1 0; Machine_WheelCount 0; Machine_NoReflector])
    as (_ & Hnone & Hetw & Hwheel & _); [vm_compute; reflexivity |].
  split; [apply Hnone; reflexivity |]. split.
  - apply Hwheel. eexists. split; [reflexivity | cbn; lia].
  - intros Hin. apply Hetw in Hin. apply Hin. reflexivity.
Defined.

(** X19. On a machine without a reflector, [reset] raises nothing: it
    returns the machine with every wheel reset, in place, and nothing else
    changed; every wheel then stands at its starting position, and a second
    [reset] changes nothing. *)
Theorem reset_without_reflector_resets (m : Machine.t) :
  Machine.reflector m = None ->
  Machine.reset m = Ok (Machine.set_wheels m (map Wheel.reset (Machine.wheels m)))
  /\ Forall (fun w => Wheel.currentPosition w = Wheel.startingPosition w)
            (map Wheel.reset (Machine.wheels m))
  /\ Machine.reset (Machine.set_wheels m (map Wheel.reset (Machine.wheels m)))
     = Ok (Machine.set_wheels m (map Wheel.reset (Machine.wheels m))).
Proof.
  intros Hnone. split; [now apply reset_without_reflector |]. split.
  - apply List.Forall_forall. intros w Hw.
    apply in_map_iff in Hw as (w0 & <- & _). reflexivity.
  - rewrite reset_without_reflector by exact Hnone.
    unfold Machine.set_wheels. cbn [Machine.wheels Machine.label Machine.alphabet
      Machine.numCharacters Machine.plugboard Machine.entryWheel Machine.reflector].
    rewrite map_map. reflexivity.
Qed.

Lemma reset_without_reflector_resets_witness :
  Machine.reset
    (Machine.set_reflector
       (Machine.set_wheels ModelM3.machine [Wheel.advance ModelM3.wheel_I 5]) None)
  = Ok (Machine.set_reflector
          (Machine.set_wheels ModelM3.machine [ModelM3.wheel_I]) None).
Proof.
  apply (reset_without_reflector_resets
           (Machine.set_reflector
              (Machine.set_wheels ModelM3.machine [Wheel.advance ModelM3.wheel_I 5])
              None)).
  reflexivity.
Defined.

(** * The presets *)

(** X20. The tables of the model M3 are substitution tables of its
    alphabet: every one of its eight wheel wirings and two reflector wirings
    holds each of the 26 letters once; the reflector wirings pair the
    letters, none with itself; every notch is a letter; the wheels have
    distinct labels, and there are at least [wheelCount] of them. *)
Theorem ModelM3_tables :
  let abc := list_ascii_of_string (Models.alphabet Models.ModelM3) in
  NoDup abc
  /\ length abc = 26%nat
  /\ Forall (fun w =>
               permutes abc (list_ascii_of_string (Models.wheel_wiring w))
               /\ Models.wheel_notches w <> []
               /\ Forall (fun notch =>
                            index_of notch (Models.alphabet Models.ModelM3) <> None)
                         (Models.wheel_notches w))
            (Models.wheels Models.ModelM3)
  /\ Forall (fun r =>
               permutes abc (list_ascii_of_string (Models.reflector_wiring r))
               /\ reciprocal abc (list_ascii_of_string (Models.reflector_wiring r)))
            (Models.reflectors Models.ModelM3)
  /\ NoDup (map Models.wheel_label (Models.wheels Models.ModelM3))
  /\ Models.wheelCount Models.ModelM3
     <= Z.of_nat (length (Models.wheels Models.ModelM3)).
Proof.
  cbv zeta. unfold permutes, reciprocal.
  apply (bool_decide_unpack _). vm_compute. exact I.
Qed.

(** X21. The tables of the model A-133 are substitution tables of one
    alphabet of 28 symbols, whatever order [Alphabet28] gives them: each of
    the three wheel wirings and the reflector wiring holds 28 symbols, none
    twice, and each holds the symbols of every other; every wheel has a
    notch, each notch is one symbol of the wirings, and there are
    [wheelCount] wheels. *)
Theorem ModelA133_tables (Alphabet28 : list N) :
  let model := Models.ModelA133 Alphabet28 in
  let tables := map Models.wheel_wiring (Models.wheels model)
                ++ map Models.reflector_wiring (Models.reflectors model) in
  Forall (fun t => length t = 28%nat
                   /\ NoDup t
                   /\ Forall (fun t' => Forall (fun c => c ∈ t) t') tables)
         tables
  /\ Forall (fun w =>
               Models.wheel_notches w <> []
               /\ Forall (fun notch =>
                            length notch = 1%nat
                            /\ Forall (fun c => c ∈ Models.wheel_wiring w) notch)
                         (Models.wheel_notches w))
            (Models.wheels model)
  /\ Models.wheelCount model = Z.of_nat (length (Models.wheels model)).
Proof.
  cbv zeta. apply (bool_decide_unpack _). vm_compute. exact I.
Qed.

(** * The machine after a message *)

Lemma processCharacter_machine (m m' : Machine.t) (char u symbol : string)
  (trace : Trace) :
  Machine.processCharacter m char u = Ok (m', (symbol, trace)) ->
  exists refl,
    Machine.reflector m = Some refl
    /\ m' = Machine.set_reflector
              (Machine.set_wheels m (advanceWheels (Machine.wheels m)))
              (Some (moveReflector refl)).
Proof.
  intros Hret.
  destruct (Machine.reflector m) as [refl |] eqn:Hrefl;
    [| rewrite processCharacter_no_reflector in Hret by exact Hrefl; discriminate].
  destruct char as [| c rest];
    [rewrite (processCharacter_empty m refl u Hrefl) in Hret; discriminate |].
  destruct (processCharacter_single m refl c rest u Hrefl) as (t & Heq & _).
  rewrite Heq in Hret. injection Hret as <- _ _.
  exists refl. split; reflexivity.
Qed.

Lemma mapChars_machine (u : string) (chars : list string) :
  forall (m m' : Machine.t) (traces traces' : list Trace) (results : list string)
         (refl : Reflector.t),
    Machine.mapChars u chars (m, traces) = Ok (m', traces', results) ->
    Machine.reflector m = Some refl ->
    Machine.label m' = Machine.label m
    /\ Machine.alphabet m' = Machine.alphabet m
    /\ Machine.numCharacters m' = Machine.numCharacters m
    /\ Machine.plugboard m' = Machine.plugboard m
    /\ Machine.entryWheel m' = Machine.entryWheel m
    /\ length (Machine.wheels m') = length (Machine.wheels m)
    /\ Machine.reflector m' = Some (Nat.iter (length chars) moveReflector refl)
    /\ head (Machine.wheels m')
       = option_map (Nat.iter (length chars) (fun w => Wheel.advance w 1))
                    (head (Machine.wheels m)).
Proof.
  induction chars as [| char rest IH];
    intros m m' traces traces' results refl Hmap Hrefl.
  - cbn in Hmap. injection Hmap as <- _ _. cbn.
    repeat split; [exact Hrefl | now destruct (head (Machine.wheels m))].
  - cbn [Machine.mapChars mbind Result_bind] in Hmap.
    destruct (Machine.processCharacter m char u) as [[m1 [symbol trace]] | e] eqn:Hchar;
      [| discriminate].
    cbn [mbind Result_bind] in Hmap.
    destruct (Machine.mapChars u rest (m1, traces ++ [trace]))
      as [[[m2 traces2] results2] | e] eqn:Hrest; [| discriminate].
    cbn [mbind Result_bind] in Hmap. injection Hmap as <- _ _.
    apply processCharacter_machine in Hchar as (refl0 & Hrefl0 & ->).
    rewrite Hrefl in Hrefl0. injection Hrefl0 as <-.
    apply (IH _ _ _ _ _ (moveReflector refl)) in Hrest; [| reflexivity].
    destruct Hrest as (Hl & Ha & Hn & Hp & He & Hw & Hr & Hh).
    cbn in Hl, Ha, Hn, Hp, He, Hw, Hh.
    unfold advanceWheels in Hw. rewrite advanceFrom_length in Hw.
    cbn [length]. rewrite !Nat.iter_succ_r.
    repeat split; try assumption.
    rewrite Hh. destruct (Machine.wheels m) as [| w ws]; [reflexivity |].
    cbn [head option_map advanceWheels advanceFrom stepWheel].
    now rewrite Nat.iter_succ_r.
Qed.

Lemma Reflector_advance_add (r : Reflector.t) (a b : Z) :
  Reflector.advance (Reflector.advance r a) b = Reflector.advance r (a + b).
Proof.
  destruct r as [l n w s mv p init]. unfold Reflector.advance. cbn.
  destruct mv; cbn; [| reflexivity].
  unfold circular. rewrite Zplus_mod_idemp_l. now rewrite Z.add_assoc.
Qed.

Lemma moveReflector_iter (refl : Reflector.t) (count : nat) :
  Reflector_inv refl ->
  Nat.iter count moveReflector refl = Reflector.advance refl (Z.of_nat count).
Proof.
  intros Hinv. induction count as [| count IH].
  - cbn. unfold Reflector_inv in Hinv. destruct refl as [l n w s mv p init].
    unfold Reflector.advance. cbn in *. destruct mv; cbn; [| reflexivity].
    unfold circular. rewrite Z.add_0_r. now rewrite Z.mod_small by lia.
  - rewrite Nat.iter_succ, IH. unfold moveReflector.
    replace (Reflector.moving (Reflector.advance refl (Z.of_nat count)))
      with (Reflector.moving refl)
      by (unfold Reflector.advance; destruct (Reflector.moving refl) eqn:Hm;
          cbn; congruence).
    destruct (Reflector.moving refl) eqn:Hm.
    + rewrite Reflector_advance_add. f_equal. lia.
    + unfold Reflector.advance. now rewrite Hm.
Qed.

(** X17. [processMessage] changes the wheels and the reflector only, and by
    one step per symbol: after a message of [L] symbols, the label, the
    alphabet, the number of characters, the plugboard and the entry wheel
    are as before, there are as many wheels, the first wheel has been
    advanced by one step [L] times, and a reflector that stood at an index
    of its alphabet is the one advanced by [L] steps (which, for a static
    reflector, is the reflector itself). *)
Theorem processMessage_machine (m m' : Machine.t) (msg u out : string)
  (traces : list Trace) (refl : Reflector.t) :
  Machine.processMessage m msg u = Ok (m', (out, traces)) ->
  Machine.reflector m = Some refl ->
  Reflector_inv refl ->
  Machine.label m' = Machine.label m
  /\ Machine.alphabet m' = Machine.alphabet m
  /\ Machine.numCharacters m' = Machine.numCharacters m
  /\ Machine.plugboard m' = Machine.plugboard m
  /\ Machine.entryWheel m' = Machine.entryWheel m
  /\ length (Machine.wheels m') = length (Machine.wheels m)
  /\ Machine.reflector m'
     = Some (Reflector.advance refl (Z.of_nat (String.length msg)))
  /\ (Reflector.moving refl = false -> Machine.reflector m' = Some refl)
  /\ head (Machine.wheels m')
     = option_map (Nat.iter (String.length msg) (fun w => Wheel.advance w 1))
                  (head (Machine.wheels m)).
Proof.
  intros Hret Hrefl Hinv.
  assert (Hmap : exists traces' results,
             Machine.mapChars u (split_chars msg) (m, []) = Ok (m', traces', results)).
  { unfold Machine.processMessage in Hret. destruct msg as [| c rest].
    - cbn in Hret. injection Hret as <- _ _. cbn. eauto.
    - cbn [String.length Nat.eqb] in Hret.
      destruct (Machine.mapChars u (split_chars (String c rest)) (m, []))
        as [[[m1 traces1] results1] | e]; cbn [mbind Result_bind] in Hret;
        [| discriminate].
      injection Hret as <- _ _. eauto. }
  destruct Hmap as (traces' & results & Hmap).
  apply (mapChars_machine _ _ _ _ _ _ _ refl) in Hmap; [| exact Hrefl].
  rewrite split_chars_length, moveReflector_iter in Hmap by exact Hinv.
  destruct Hmap as (Hl & Ha & Hn & Hp & He & Hw & Hr & Hh).
  repeat split; try assumption.
  intros Hstatic. rewrite Hr. unfold Reflector.advance. now rewrite Hstatic.
Qed.

Lemma processMessage_machine_witness :
  match Machine.processMessage
          (Machine.set_reflector ModelM3.machine (Some movingReflector))
          "ENIGMA" "X" with
  | Ok (m', (out, traces)) =>
      Machine.entryWheel m' = ModelM3.ETW
      /\ Machine.reflector m' = Some (Reflector.advance movingReflector 6)
      /\ head (Machine.wheels m')
         = Some (Nat.iter 6 (fun w => Wheel.advance w 1) ModelM3.wheel_III)
  | Throw _ => False
  end.
Proof.
  destruct (Machine.processMessage
              (Machine.set_reflector ModelM3.machine (Some movingReflector))
              "ENIGMA" "X")
    as [[m' [out traces]] | e] eqn:Hret; [| vm_compute in Hret; discriminate].
  destruct (processMessage_machine _ m' "ENIGMA" "X" out traces movingReflector Hret)
    as (_ & _ & _ & _ & He & _ & Hr & _ & Hh);
    [reflexivity | unfold Reflector_inv; cbn; lia |].
  auto.
Defined.
